(** * Runtime validation of quick-reference medication records

    A shallow embedding of [validateMedication] from
    [src/lib/quick-reference-database/validation/runtime.ts], and the
    properties its specification states about it.

    The function is a thin layer over a zod schema: it calls
    [QuickReferenceMedicationSchema.safeParse], turns the issues of a failed
    parse into error strings, and on a successful parse runs two checks of its
    own on the validated data (age ranges of the dosing profiles, presence of
    complaint categories).  The schema lives in [./schemas]; here it is a
    parameter of the development.

    The validator is embedded twice.  [validateMedication] works on the
    record as a value and pushes without bound; it carries the properties of
    the results.  [Engine.validateMedication] runs the same lines on a heap,
    with the record and the arrays as objects and with the bound an engine
    puts on the arguments of a spread call; it carries the properties of the
    call itself: when it throws, what it leaves on the heap, how two calls
    compare.  [engine_refines] relates the two.

    The file also covers [ScrollRevealList] of the scroll-reveal component
    file: the elements it builds for its children, their keys and delays. *)

From Stdlib Require Import List String Arith Lia Sorted Floats.
From Stdlib Require Import DecimalString DecimalNat.
From Stdlib Require ZArith Uint63.
Import ListNotations.

Local Open Scope string_scope.
Local Open Scope list_scope.

(** ** Data *)

(** A JavaScript [number] is an IEEE 754 binary64 value. *)
Definition number := float.

(** The fields of a dosing profile that the validator reads.  An optional
    property that is missing reads as [undefined], here [None]. *)
Record DosingProfile := {
  minAge : option number;
  maxAge : option number
}.

(** The validated data handed back by a successful parse, restricted to the
    two properties the validator reads. *)
Record QuickReferenceMedication := {
  dosingProfiles : option (list DosingProfile);
  complaintCategories : option (list string)
}.

(** One segment of a zod issue path: a property name or an array index. *)
Inductive PathSegment :=
| Key (name : string)
| Index (i : nat).

Record ZodIssue := {
  path : list PathSegment;
  message : string
}.

(** zod reports a parse as failed only when at least one issue was recorded
    (a run that records none is reported as a success), so the error object
    of a failed [safeParse] never has an empty issue list. *)
Record ZodError := {
  issues : list ZodIssue;
  issues_recorded : issues <> []
}.

(** The error object holding the issue [first] followed by [rest]. *)
Definition zodError (first : ZodIssue) (rest : list ZodIssue) : ZodError :=
  {| issues := first :: rest;
     issues_recorded := fun H => @nil_cons _ first rest (eq_sym H) |}.

(** The discriminated union returned by [safeParse]. *)
Inductive SafeParseReturnType :=
| SafeParseSuccess (data : QuickReferenceMedication)
| SafeParseError (error : ZodError).

Record ValidationResult := {
  isValid : bool;
  errors : list string;
  warnings : list string
}.

Inductive JsError :=
| TypeError (what : string)
| RangeError (what : string).

(** ** Strings *)

(** [String(n)] and [`${n}`] for a non-negative integer [n]. *)
Definition String_of_nat (n : nat) : string :=
  NilEmpty.string_of_uint (Nat.to_uint n).

(** [String(segment)], the callback of [e.path.map(String)]. *)
Definition String_of_segment (s : PathSegment) : string :=
  match s with
  | Key name => name
  | Index i => String_of_nat i
  end.

(** [parts.join(sep)]. *)
Definition join (sep : string) (parts : list string) : string :=
  String.concat sep parts.

(** The callback of [issues.map] on line 20:
    [`${e.path.map(String).join('.')}: ${e.message}`]. *)
Definition formatIssue (e : ZodIssue) : string :=
  join "." (map String_of_segment (path e)) ++ ": " ++ message e.

(** The template literal of line 33, for the loop index [i]. *)
Definition dosingProfileError (i : nat) : string :=
  "Dosing profile #" ++ String_of_nat (i + 1)
    ++ ": Minimum age must be less than maximum age".

Definition noComplaintCategories : string :=
  "No complaint categories assigned".

(** ** Values *)

(** Truthiness of a value that is an object (or array) or [undefined]. *)
Definition truthy {A : Type} (v : option A) : bool :=
  match v with
  | Some _ => true
  | None => false
  end.

(** [v !== undefined]. *)
Definition defined {A : Type} (v : option A) : bool := truthy v.

(** [a >= b] on operands that are numbers or [undefined].  [undefined]
    converts to NaN, and every comparison with NaN is false; on two numbers
    [a >= b] is the IEEE comparison [b <= a]. *)
Definition js_ge (a b : option number) : bool :=
  match a, b with
  | Some x, Some y => PrimFloat.leb y x
  | _, _ => false
  end.

(** ** The validator *)

Section Validator.

(** The value passed in by the caller: anything at all, well-formed or
    not.  Only the schema looks inside it. *)
Variable Raw : Type.

(** [QuickReferenceMedicationSchema.safeParse]. *)
Variable safeParse : Raw -> SafeParseReturnType.

(** The variables in scope in the body of [validateMedication]: its
    parameter and the two arrays it declares. *)
Record Env := {
  var_medication : Raw;
  var_errors : list string;
  var_warnings : list string
}.

(** A statement or expression either completes normally, with a value and
    the environment it leaves, or throws. *)
Inductive Completion (A : Type) :=
| Normal (a : A) (env : Env)
| Throw (e : JsError).
Arguments Normal {A} a env.
Arguments Throw {A} e.

Definition Js (A : Type) : Type := Env -> Completion A.

Definition ret {A : Type} (a : A) : Js A := fun env => Normal a env.

Definition bind {A B : Type} (c : Js A) (k : A -> Js B) : Js B :=
  fun env =>
    match c env with
    | Normal a env' => k a env'
    | Throw e => Throw e
    end.

Definition throw {A : Type} (e : JsError) : Js A := fun _ => Throw e.

Notation "x <- c ;; k" := (bind c (fun x => k))
  (at level 61, c at next level, right associativity).
Notation "c ;; k" := (bind c (fun _ => k))
  (at level 61, right associativity).

(** [a && b] and [a || b] in a condition: the right operand is evaluated
    only when the left one does not decide the result. *)
Definition and_then (a b : Js bool) : Js bool :=
  x <- a ;; if x then b else ret false.

Definition or_else (a b : Js bool) : Js bool :=
  x <- a ;; if x then ret true else b.

Infix "&&&" := and_then (at level 40, left associativity).
Infix "|||" := or_else (at level 50, left associativity).

(** [obj.field]: reading a property of [undefined] throws a TypeError. *)
Definition member {A B : Type} (field : A -> B) (obj : option A) : Js B :=
  match obj with
  | Some o => ret (field o)
  | None => throw (TypeError "Cannot read properties of undefined")
  end.

Definition read_medication : Js Raw :=
  fun env => Normal (var_medication env) env.

Definition read_errors : Js (list string) :=
  fun env => Normal (var_errors env) env.

Definition read_warnings : Js (list string) :=
  fun env => Normal (var_warnings env) env.

(** [errors.push(...items)] and [warnings.push(item)], as carried out once
    the call is made.  The bound on the arguments of a spread call is in
    [Engine.push_spread]. *)
Definition errors_push (items : list string) : Js unit :=
  fun env =>
    Normal tt {| var_medication := var_medication env;
                 var_errors := var_errors env ++ items;
                 var_warnings := var_warnings env |}.

Definition warnings_push (item : string) : Js unit :=
  fun env =>
    Normal tt {| var_medication := var_medication env;
                 var_errors := var_errors env;
                 var_warnings := var_warnings env ++ [item] |}.

(** [for (let i = start; i < start + count; i++) body(i)]. *)
Fixpoint for_loop (count i : nat) (body : nat -> Js unit) : Js unit :=
  match count with
  | 0 => ret tt
  | S count' => body i ;; for_loop count' (S i) body
  end.

(** Lines 26 to 34: the body of the loop over the dosing profiles. *)
Definition checkDosingProfile (profiles : list DosingProfile) (i : nat)
  : Js unit :=
  let profile := nth_error profiles i in
  offending <-
    (ret (truthy profile)
     &&& (a <- member minAge profile ;; ret (defined a))
     &&& (b <- member maxAge profile ;; ret (defined b))
     &&& (a <- member minAge profile ;;
          b <- member maxAge profile ;;
          ret (js_ge a b))) ;;
  if offending then errors_push [dosingProfileError i] else ret tt.

(** Lines 17 to 46. *)
Definition validateMedication_body : Js ValidationResult :=
  medication <- read_medication ;;
  match safeParse medication with
  | SafeParseError error =>
      errors_push (map formatIssue (issues error))
  | SafeParseSuccess validatedData =>
      match dosingProfiles validatedData with
      | Some profiles =>
          for_loop (List.length profiles) 0 (checkDosingProfile profiles)
      | None => ret tt
      end ;;
      unassigned <-
        (ret (negb (truthy (complaintCategories validatedData)))
         ||| (n <- member (@List.length string)
                     (complaintCategories validatedData) ;;
              ret (n =? 0)%nat)) ;;
      if unassigned then warnings_push noComplaintCategories else ret tt
  end ;;
  errs <- read_errors ;;
  warns <- read_warnings ;;
  ret {| isValid := (List.length errs =? 0)%nat;
         errors := errs;
         warnings := warns |}.

(** A call: the parameter is bound to the caller's record, and lines 13
    and 14 bind [errors] and [warnings] to fresh empty arrays. *)
Definition validateMedication (medication : Raw)
  : Completion ValidationResult :=
  validateMedication_body
    {| var_medication := medication;
       var_errors := [];
       var_warnings := [] |}.

End Validator.

Arguments Normal {Raw A} a env.
Arguments Throw {Raw A} e.
Arguments Build_Env {Raw} _ _ _.
Arguments var_medication {Raw} _.
Arguments var_errors {Raw} _.
Arguments var_warnings {Raw} _.
Arguments validateMedication {Raw} safeParse medication.

(** ** What the specification says, in its own words

    These definitions follow the text of the specification; the theorems
    compare them with what [validateMedication] computes. *)

(** The dosing profiles of a record, none when the property is absent. *)
Definition profilesOf (data : QuickReferenceMedication) : list DosingProfile :=
  match dosingProfiles data with
  | Some profiles => profiles
  | None => []
  end.

(** Both ages are present and [minAge >= maxAge]. *)
Definition offendingProfile (p : DosingProfile) : bool :=
  match minAge p, maxAge p with
  | Some lo, Some hi => PrimFloat.leb hi lo
  | _, _ => false
  end.

(** There is a profile at the 1-based position [pos] and it is offending. *)
Definition offendingAt (profiles : list DosingProfile) (pos : nat) : bool :=
  match pos with
  | 0 => false
  | S k =>
      match nth_error profiles k with
      | Some p => offendingProfile p
      | None => false
      end
  end.

(** The offending positions, in ascending order. *)
Definition offendingPositions (profiles : list DosingProfile) : list nat :=
  filter (offendingAt profiles) (seq 1 (List.length profiles)).

(** The error entry for the 1-based position [pos]. *)
Definition profileMessage (pos : nat) : string :=
  "Dosing profile #" ++ String_of_nat pos
    ++ ": Minimum age must be less than maximum age".

(** [complaintCategories] is absent or has zero length. *)
Definition categoriesMissing (data : QuickReferenceMedication) : bool :=
  match complaintCategories data with
  | None => true
  | Some [] => true
  | Some (_ :: _) => false
  end.

(** The environment [env] after [more] was pushed to [errors]. *)
Definition withErrors {Raw : Type} (env : Env Raw) (more : list string)
  : Env Raw :=
  {| var_medication := var_medication env;
     var_errors := var_errors env ++ more;
     var_warnings := var_warnings env |}.

(** The result object built on lines 42 to 46 from the two arrays. *)
Definition resultOf (errs warns : list string) : ValidationResult :=
  {| isValid := (List.length errs =? 0)%nat;
     errors := errs;
     warnings := warns |}.

(** The entries the specification expects after a successful parse. *)
Definition expectedErrors (data : QuickReferenceMedication) : list string :=
  map profileMessage (offendingPositions (profilesOf data)).

Definition expectedWarnings (data : QuickReferenceMedication) : list string :=
  if categoriesMissing data then [noComplaintCategories] else [].

(** ** Sample inputs

    A small schema over a three-way input, used to run the validator on
    concrete records: [undefined], an object with two schema violations,
    and a well-formed record (which parses to itself). *)

Inductive SampleInput :=
| Undefined
| Malformed
| WellFormed (data : QuickReferenceMedication).

Definition requiredIssue : ZodIssue :=
  {| path := []; message := "Required" |}.

Definition minAgeIssue : ZodIssue :=
  {| path := [Key "dosingProfiles"; Index 0; Key "minAge"];
     message := "Expected number, received string" |}.

Definition nameIssue : ZodIssue :=
  {| path := [Key "name"]; message := "Required" |}.

Definition undefinedError : ZodError := zodError requiredIssue [].

Definition malformedError : ZodError := zodError minAgeIssue [nameIssue].

Definition sampleSchema (input : SampleInput) : SafeParseReturnType :=
  match input with
  | Undefined => SafeParseError undefinedError
  | Malformed => SafeParseError malformedError
  | WellFormed data => SafeParseSuccess data
  end.

Definition sampleProfile (lo hi : number) : DosingProfile :=
  {| minAge := Some lo; maxAge := Some hi |}.
Arguments sampleProfile (lo hi)%_float_scope.

(** One profile, [minAge = 10], [maxAge = 5]. *)
Definition oneInvalid : QuickReferenceMedication :=
  {| dosingProfiles := Some [sampleProfile 10 5];
     complaintCategories := Some ["pain"] |}.

(** Two profiles, the first invalid and the second valid. *)
Definition invalidThenValid : QuickReferenceMedication :=
  {| dosingProfiles := Some [sampleProfile 10 5; sampleProfile 1 2];
     complaintCategories := Some ["pain"] |}.

(** Three profiles, the first and the last invalid. *)
Definition invalidValidInvalid : QuickReferenceMedication :=
  {| dosingProfiles := Some [sampleProfile 10 5; sampleProfile 1 2; sampleProfile 3 3];
     complaintCategories := Some ["pain"] |}.

(** No dosing profiles and an empty list of categories. *)
Definition noCategories : QuickReferenceMedication :=
  {| dosingProfiles := None; complaintCategories := Some [] |}.

(** No dosing profiles and one category. *)
Definition plainRecord : QuickReferenceMedication :=
  {| dosingProfiles := Some []; complaintCategories := Some ["pain"] |}.

(** ** The staggered reveal list

    [ScrollRevealList] of the scroll-reveal component file: it wraps each of
    its children in a [ScrollReveal] element whose delay grows with the
    position of the child.  React's [Children.toArray] and the string held by
    [componentIdRef] (made from [Math.random] on the first render) are
    parameters. *)

Inductive Animation :=
| fade
| slide_up
| slide_down
| slide_left
| slide_right
| scale.

(** [ScrollRevealProps]; a property that is not passed is [None]. *)
Module ScrollRevealProps.
Record t (Node : Type) := {
  children : Node;
  className : option string;
  animation : option Animation;
  delay : option number;
  threshold : option number;
  triggerOnce : option bool
}.
Arguments children {Node} _.
Arguments className {Node} _.
Arguments animation {Node} _.
Arguments delay {Node} _.
Arguments threshold {Node} _.
Arguments triggerOnce {Node} _.
End ScrollRevealProps.

(** [ScrollRevealListProps]. *)
Module ScrollRevealListProps.
Record t (Node : Type) := {
  children : Node;
  className : option string;
  itemClassName : option string;
  animation : option Animation;
  staggerDelay : option number;
  threshold : option number;
  triggerOnce : option bool
}.
Arguments children {Node} _.
Arguments className {Node} _.
Arguments itemClassName {Node} _.
Arguments animation {Node} _.
Arguments staggerDelay {Node} _.
Arguments threshold {Node} _.
Arguments triggerOnce {Node} _.
End ScrollRevealListProps.

(** A [<ScrollReveal key=... ...props>] element, not yet rendered. *)
Record ScrollRevealElement (Node : Type) := {
  key : string;
  props : ScrollRevealProps.t Node
}.
Arguments key {Node} _.
Arguments props {Node} _.

(** The [<div className=...>] returned by [ScrollRevealList]. *)
Record DivElement (Node : Type) := {
  div_className : option string;
  div_children : list (ScrollRevealElement Node)
}.
Arguments div_className {Node} _.
Arguments div_children {Node} _.

(** A destructured property with a default: the default applies when the
    property is [undefined]. *)
Definition withDefault {A : Type} (d : A) (v : option A) : A :=
  match v with
  | Some a => a
  | None => d
  end.

(** An array index as a [number].  Exact below 2^53, and an array has fewer
    than 2^32 elements. *)
Definition number_of_index (index : nat) : number :=
  PrimFloat.of_uint63 (Uint63.of_Z (BinInt.Z.of_nat index)).

(** [array.map((item, index) => f(item, index))], with the index of the
    first remaining item carried along. *)
Fixpoint Array_map_from {A B : Type} (f : A -> nat -> B) (index : nat)
    (array : list A) : list B :=
  match array with
  | [] => []
  | item :: rest => f item index :: Array_map_from f (S index) rest
  end.

Definition Array_map {A B : Type} (f : A -> nat -> B) (array : list A)
  : list B :=
  Array_map_from f 0 array.

(** The key of line 95: [`${componentIdRef.current}-reveal-${index}`]. *)
Definition revealKey (current : string) (index : nat) : string :=
  current ++ "-reveal-" ++ String_of_nat index.

Section ScrollRevealList.

Variable Node : Type.

(** [Children.toArray]. *)
Variable toArray : Node -> list Node.

(** The element built for [child] at [index], lines 94 to 103. *)
Definition revealItem (current : string) (animation : Animation)
    (staggerDelay threshold : number) (triggerOnce : bool)
    (itemClassName : option string) (child : Node) (index : nat)
  : ScrollRevealElement Node :=
  {| key := revealKey current index;
     props :=
       {| ScrollRevealProps.animation := Some animation;
          ScrollRevealProps.delay :=
            Some (PrimFloat.mul (number_of_index index) staggerDelay);
          ScrollRevealProps.threshold := Some threshold;
          ScrollRevealProps.triggerOnce := Some triggerOnce;
          ScrollRevealProps.className := itemClassName;
          ScrollRevealProps.children := child |} |}.

(** Lines 77 to 107, for the string [current] held by [componentIdRef]. *)
Definition ScrollRevealList (current : string)
    (listProps : ScrollRevealListProps.t Node) : DivElement Node :=
  let animation :=
    withDefault slide_up (ScrollRevealListProps.animation listProps) in
  let staggerDelay :=
    withDefault 100%float (ScrollRevealListProps.staggerDelay listProps) in
  let threshold :=
    withDefault 0x1.999999999999ap-4%float
      (ScrollRevealListProps.threshold listProps) in
  let triggerOnce :=
    withDefault true (ScrollRevealListProps.triggerOnce listProps) in
  let childArray := toArray (ScrollRevealListProps.children listProps) in
  {| div_className := ScrollRevealListProps.className listProps;
     div_children :=
       Array_map
         (revealItem current animation staggerDelay threshold triggerOnce
            (ScrollRevealListProps.itemClassName listProps))
         childArray |}.

End ScrollRevealList.

Arguments revealItem {Node} _ _ _ _ _ _ _ _.
Arguments ScrollRevealList {Node} toArray current listProps.

(** The number of dosing profiles that have both ages, with
    [minAge >= maxAge]. *)
Definition offendingCount (profiles : list DosingProfile) : nat :=
  List.length (filter offendingProfile profiles).

(** Three children under the default properties of the list. *)
Definition threeChildren : ScrollRevealListProps.t (list string) :=
  {| ScrollRevealListProps.children := ["a"; "b"; "c"];
     ScrollRevealListProps.className := None;
     ScrollRevealListProps.itemClassName := Some "item";
     ScrollRevealListProps.animation := None;
     ScrollRevealListProps.staggerDelay := None;
     ScrollRevealListProps.threshold := None;
     ScrollRevealListProps.triggerOnce := None |}.

(** A stand-in for [Children.toArray] on a list of text children: one node
    per string. *)
Definition textChildren (children : list string) : list (list string) :=
  map (fun child => [child]) children.

(** Two profiles added after the ones of [oneInvalid]. *)
Definition oneInvalidThenMore : QuickReferenceMedication :=
  {| dosingProfiles :=
       Some [sampleProfile 10 5; sampleProfile 1 2; sampleProfile 3 3];
     complaintCategories := None |}.

(** ** The validator on the heap of an engine

    [validateMedication] above is the validator where a call takes any
    number of arguments and the record is a value.  Here the same lines run
    on a heap: the record is an object of the caller, reached through a
    reference, the two arrays are objects allocated by the call, and the
    result holds them by reference.  A call that spreads an array into its
    arguments, as [errors.push(...)] on line 20 does, throws a RangeError
    when the array has more elements than the engine takes as arguments;
    that bound is the parameter [maxArguments]. *)

Module Engine.

Definition Ref := nat.

Section Engine.

(** What the caller passes, as before. *)
Variable Raw : Type.

(** [QuickReferenceMedicationSchema.safeParse]: it reads the value it is
    given and builds its result afresh. *)
Variable safeParse : Raw -> SafeParseReturnType.

(** The largest number of elements a call can take from a spread array. *)
Variable maxArguments : nat.

Inductive Object :=
| Input (value : Raw)
| StringArray (items : list string).

(** The objects allocated so far, each at its index. *)
Definition Heap := list Object.

(** The object literal of lines 42 to 46: the flag, and the two arrays by
    reference. *)
Record ResultObject := {
  result_isValid : bool;
  result_errors : Ref;
  result_warnings : Ref
}.

Inductive Completion (A : Type) :=
| Normal (a : A) (heap : Heap)
| Throw (e : JsError) (heap : Heap).
Arguments Normal {A} a heap.
Arguments Throw {A} e heap.

Definition Js (A : Type) : Type := Heap -> Completion A.

Definition ret {A : Type} (a : A) : Js A := fun heap => Normal a heap.

Definition bind {A B : Type} (c : Js A) (k : A -> Js B) : Js B :=
  fun heap =>
    match c heap with
    | Normal a heap' => k a heap'
    | Throw e heap' => Throw e heap'
    end.

Definition throw {A : Type} (e : JsError) : Js A := fun heap => Throw e heap.

Notation "x <- c ;; k" := (bind c (fun x => k))
  (at level 61, c at next level, right associativity).
Notation "c ;; k" := (bind c (fun _ => k))
  (at level 61, right associativity).

Definition and_then (a b : Js bool) : Js bool :=
  x <- a ;; if x then b else ret false.

Definition or_else (a b : Js bool) : Js bool :=
  x <- a ;; if x then ret true else b.

Infix "&&&" := and_then (at level 40, left associativity).
Infix "|||" := or_else (at level 50, left associativity).

Definition member {A B : Type} (field : A -> B) (obj : option A) : Js B :=
  match obj with
  | Some o => ret (field o)
  | None => throw (TypeError "Cannot read properties of undefined")
  end.

(** A new object, at the first free index. *)
Definition allocate (o : Object) : Js Ref :=
  fun heap => Normal (List.length heap) (heap ++ [o]).

(** The heap with the object at [ref] replaced by [o]. *)
Fixpoint replace (heap : Heap) (ref : Ref) (o : Object) : Heap :=
  match heap, ref with
  | [], _ => []
  | _ :: rest, 0 => o :: rest
  | x :: rest, S ref' => x :: replace rest ref' o
  end.

(** The caller's value behind the parameter.  A parameter always refers to
    one; for any other reference the read throws. *)
Definition read_input (ref : Ref) : Js Raw :=
  fun heap =>
    match nth_error heap ref with
    | Some (Input value) => Normal value heap
    | _ => Throw (TypeError "not a value of the caller") heap
    end.

(** [array.push(item)]. *)
Definition push (array : Ref) (item : string) : Js unit :=
  fun heap =>
    match nth_error heap array with
    | Some (StringArray items) =>
        Normal tt (replace heap array (StringArray (items ++ [item])))
    | _ => Throw (TypeError "push is not a function") heap
    end.

(** [array.push(...more)]: the elements of [more] become the arguments of
    the call, and the call is not made when they are too many. *)
Definition push_spread (array : Ref) (more : list string) : Js unit :=
  fun heap =>
    if (maxArguments <? List.length more)%nat
    then Throw (RangeError "Maximum call stack size exceeded") heap
    else
      match nth_error heap array with
      | Some (StringArray items) =>
          Normal tt (replace heap array (StringArray (items ++ more)))
      | _ => Throw (TypeError "push is not a function") heap
      end.

(** [array.length]. *)
Definition array_length (array : Ref) : Js nat :=
  fun heap =>
    match nth_error heap array with
    | Some (StringArray items) => Normal (List.length items) heap
    | _ => Throw (TypeError "Cannot read properties of undefined") heap
    end.

Fixpoint for_loop (count i : nat) (body : nat -> Js unit) : Js unit :=
  match count with
  | 0 => ret tt
  | S count' => body i ;; for_loop count' (S i) body
  end.

(** Lines 26 to 34, with [errors] the array of line 13. *)
Definition checkDosingProfile (errors : Ref) (profiles : list DosingProfile)
    (i : nat) : Js unit :=
  let profile := nth_error profiles i in
  offending <-
    (ret (truthy profile)
     &&& (a <- member minAge profile ;; ret (defined a))
     &&& (b <- member maxAge profile ;; ret (defined b))
     &&& (a <- member minAge profile ;;
          b <- member maxAge profile ;;
          ret (js_ge a b))) ;;
  if offending then push errors (dosingProfileError i) else ret tt.

(** Lines 13 to 46, for the parameter [medication]. *)
Definition validateMedication (medication : Ref) : Js ResultObject :=
  errors <- allocate (StringArray []) ;;
  warnings <- allocate (StringArray []) ;;
  value <- read_input medication ;;
  match safeParse value with
  | SafeParseError error =>
      push_spread errors (map formatIssue (issues error))
  | SafeParseSuccess validatedData =>
      match dosingProfiles validatedData with
      | Some profiles =>
          for_loop (List.length profiles) 0
            (checkDosingProfile errors profiles)
      | None => ret tt
      end ;;
      unassigned <-
        (ret (negb (truthy (complaintCategories validatedData)))
         ||| (n <- member (@List.length string)
                     (complaintCategories validatedData) ;;
              ret (n =? 0)%nat)) ;;
      if unassigned then push warnings noComplaintCategories else ret tt
  end ;;
  count <- array_length errors ;;
  ret {| result_isValid := (count =? 0)%nat;
         result_errors := errors;
         result_warnings := warnings |}.

(** The strings of the array at [ref]. *)
Definition arrayAt (heap : Heap) (ref : Ref) : option (list string) :=
  match nth_error heap ref with
  | Some (StringArray items) => Some items
  | _ => None
  end.

(** A result object with its arrays read off the heap. *)
Definition snapshot (heap : Heap) (r : ResultObject)
  : option ValidationResult :=
  match arrayAt heap (result_errors r), arrayAt heap (result_warnings r) with
  | Some errs, Some warns =>
      Some {| isValid := result_isValid r;
              errors := errs;
              warnings := warns |}
  | _, _ => None
  end.

End Engine.

Arguments Input {Raw} value.
Arguments StringArray {Raw} items.
Arguments Normal {Raw A} a heap.
Arguments Throw {Raw A} e heap.
Arguments validateMedication {Raw} safeParse maxArguments medication.
Arguments arrayAt {Raw} heap ref.
Arguments snapshot {Raw} heap r.

End Engine.

(** ** The entry of an issue, in the words of the specification *)

(** The text of a path segment: a property name as it is, an index in
    decimal. *)
Definition segmentText (s : PathSegment) : string :=
  match s with
  | Key name => name
  | Index i => String_of_nat i
  end.

(** The texts separated by dots. *)
Fixpoint dotted (texts : list string) : string :=
  match texts with
  | [] => ""
  | [text] => text
  | text :: rest => text ++ "." ++ dotted rest
  end.

(** [<dot-joined path>: <message>]. *)
Definition issueEntry (issue : ZodIssue) : string :=
  dotted (map segmentText (path issue)) ++ ": " ++ message issue.

(** The value of a decimal digit, by its character code. *)
Definition digitValue (c : Ascii.ascii) : option nat :=
  let code := Ascii.nat_of_ascii c in
  if ((48 <=? code) && (code <=? 57))%nat%bool
  then Some (code - 48)
  else None.

(** The number a string of decimal digits stands for, read from the left
    with [value] standing for the digits already read. *)
Fixpoint decimalValue_from (value : nat) (s : string) : option nat :=
  match s with
  | EmptyString => Some value
  | String c rest =>
      match digitValue c with
      | Some d => decimalValue_from (10 * value + d) rest
      | None => None
      end
  end.

Definition decimalValue (s : string) : option nat :=
  match s with
  | EmptyString => None
  | String _ _ => decimalValue_from 0 s
  end.

(** An issue deep in an array, at index 12. *)
Definition deepIssue : ZodIssue :=
  {| path := [Key "dosingProfiles"; Index 12; Key "maxAge"];
     message := "Expected number, received string" |}.

Definition deepError : ZodError :=
  zodError deepIssue [nameIssue; requiredIssue].

(** A schema that finds the three issues of [deepError] in the malformed
    input, and is [sampleSchema] elsewhere. *)
Definition deepSchema (input : SampleInput) : SafeParseReturnType :=
  match input with
  | Malformed => SafeParseError deepError
  | _ => sampleSchema input
  end.

(** A schema that reports [n + 1] issues for whatever it is given, as for
    an array of that many malformed entries. *)
Definition crowdedSchema (n : nat) (input : SampleInput)
  : SafeParseReturnType :=
  SafeParseError (zodError nameIssue (repeat nameIssue n)).

(** The heap after a call has allocated its two arrays and filled them. *)
Definition withArrays {Raw : Type} (heap : Engine.Heap Raw)
    (errs warns : list string) : Engine.Heap Raw :=
  heap ++ [Engine.StringArray errs; Engine.StringArray warns].

(** The heap a call leaves, whether it returns or throws. *)
Definition heapAfter {Raw A : Type} (c : Engine.Completion Raw A)
  : Engine.Heap Raw :=
  match c with
  | Engine.Normal _ heap => heap
  | Engine.Throw _ heap => heap
  end.

(** Two calls end alike: both return, and their results have the same flag
    and the same errors and warnings, entry for entry, or both throw the
    same error. *)
Definition sameOutcome {Raw : Type}
    (c1 c2 : Engine.Completion Raw Engine.ResultObject) : Prop :=
  match c1, c2 with
  | Engine.Normal r1 heap1, Engine.Normal r2 heap2 =>
      exists result,
        Engine.snapshot heap1 r1 = Some result /\
        Engine.snapshot heap2 r2 = Some result
  | Engine.Throw e1 _, Engine.Throw e2 _ => e1 = e2
  | _, _ => False
  end.

(** The result object of a call made on [heap]. *)
Definition resultAt {Raw : Type} (heap : Engine.Heap Raw) (valid : bool)
  : Engine.ResultObject :=
  {| Engine.result_isValid := valid;
     Engine.result_errors := List.length heap;
     Engine.result_warnings := S (List.length heap) |}.

(** A heap with one record of the caller, at index 0. *)
Definition oneRecord (input : SampleInput) : Engine.Heap SampleInput :=
  [Engine.Input input].

(** ** The validator on the sample inputs *)

Example run_oneInvalid :
  validateMedication sampleSchema (WellFormed oneInvalid) =
  Normal
    {| isValid := false;
       errors :=
         ["Dosing profile #1: Minimum age must be less than maximum age"];
       warnings := [] |}
    {| var_medication := WellFormed oneInvalid;
       var_errors :=
         ["Dosing profile #1: Minimum age must be less than maximum age"];
       var_warnings := [] |}.
Proof. reflexivity. Qed.

Example run_invalidThenValid :
  validateMedication sampleSchema (WellFormed invalidThenValid) =
  Normal
    {| isValid := false;
       errors :=
         ["Dosing profile #1: Minimum age must be less than maximum age"];
       warnings := [] |}
    {| var_medication := WellFormed invalidThenValid;
       var_errors :=
         ["Dosing profile #1: Minimum age must be less than maximum age"];
       var_warnings := [] |}.
Proof. reflexivity. Qed.

Example run_invalidValidInvalid :
  validateMedication sampleSchema (WellFormed invalidValidInvalid) =
  Normal
    {| isValid := false;
       errors :=
         ["Dosing profile #1: Minimum age must be less than maximum age";
          "Dosing profile #3: Minimum age must be less than maximum age"];
       warnings := [] |}
    {| var_medication := WellFormed invalidValidInvalid;
       var_errors :=
         ["Dosing profile #1: Minimum age must be less than maximum age";
          "Dosing profile #3: Minimum age must be less than maximum age"];
       var_warnings := [] |}.
Proof. reflexivity. Qed.

Example run_noCategories :
  validateMedication sampleSchema (WellFormed noCategories) =
  Normal
    {| isValid := true;
       errors := [];
       warnings := ["No complaint categories assigned"] |}
    {| var_medication := WellFormed noCategories;
       var_errors := [];
       var_warnings := ["No complaint categories assigned"] |}.
Proof. reflexivity. Qed.

Example run_plainRecord :
  validateMedication sampleSchema (WellFormed plainRecord) =
  Normal
    {| isValid := true; errors := []; warnings := [] |}
    {| var_medication := WellFormed plainRecord;
       var_errors := [];
       var_warnings := [] |}.
Proof. reflexivity. Qed.

Example run_Malformed :
  validateMedication sampleSchema Malformed =
  Normal
    {| isValid := false;
       errors :=
         ["dosingProfiles.0.minAge: Expected number, received string";
          "name: Required"];
       warnings := [] |}
    {| var_medication := Malformed;
       var_errors :=
         ["dosingProfiles.0.minAge: Expected number, received string";
          "name: Required"];
       var_warnings := [] |}.
Proof. reflexivity. Qed.

Example run_Undefined :
  validateMedication sampleSchema Undefined =
  Normal
    {| isValid := false; errors := [": Required"]; warnings := [] |}
    {| var_medication := Undefined;
       var_errors := [": Required"];
       var_warnings := [] |}.
Proof. reflexivity. Qed.

(** A comparison with NaN is false: a profile whose ages are both present
    but not comparable is not reported. *)
Example run_nan :
  offendingProfile (sampleProfile nan 5) = false /\
  offendingProfile (sampleProfile 5 5) = true /\
  offendingProfile (sampleProfile 4 5) = false.
Proof. repeat split. Qed.

(** Without its guard, a property read on [undefined] throws. *)
Example member_undefined_throws :
  member SampleInput minAge None
    {| var_medication := Undefined; var_errors := []; var_warnings := [] |} =
  Throw (TypeError "Cannot read properties of undefined").
Proof. reflexivity. Qed.

(** ** Strings: the messages tell positions apart *)

Lemma length_append (s t : string) :
  String.length (s ++ t) = String.length s + String.length t.
Proof.
  induction s as [|c s IH]; simpl; [reflexivity | now rewrite IH].
Qed.

Lemma append_same_length_inj (t s1 s2 : string) :
  String.length s1 = String.length s2 ->
  (s1 ++ t = s2 ++ t)%string -> s1 = s2.
Proof.
  revert s2; induction s1 as [|c s1 IH]; intros [|c' s2] Hlen Heq;
    simpl in *; try discriminate.
  - reflexivity.
  - injection Heq as -> Heq. f_equal. apply IH; [lia | assumption].
Qed.

Lemma append_suffix_inj (t s1 s2 : string) :
  (s1 ++ t = s2 ++ t)%string -> s1 = s2.
Proof.
  intros Heq. apply (append_same_length_inj t); [|assumption].
  apply (f_equal String.length) in Heq.
  rewrite !length_append in Heq. lia.
Qed.

Lemma String_of_nat_inj (a b : nat) :
  String_of_nat a = String_of_nat b -> a = b.
Proof.
  unfold String_of_nat. intros Heq.
  apply DecimalNat.Unsigned.to_uint_inj.
  apply (f_equal NilEmpty.uint_of_string) in Heq.
  rewrite !NilEmpty.usu in Heq. now injection Heq.
Qed.

Lemma profileMessage_inj (a b : nat) :
  profileMessage a = profileMessage b -> a = b.
Proof.
  unfold profileMessage. simpl. intros Heq.
  injection Heq as Heq.
  apply String_of_nat_inj. eapply append_suffix_inj. exact Heq.
Qed.

Lemma dosingProfileError_message (i : nat) :
  dosingProfileError i = profileMessage (S i).
Proof.
  unfold dosingProfileError, profileMessage. now rewrite Nat.add_1_r.
Qed.

(** ** Running the validator *)

Section Run.

Context {Raw : Type} (safeParse : Raw -> SafeParseReturnType).

Lemma withErrors_nil (env : Env Raw) : withErrors env [] = env.
Proof.
  destruct env as [m es ws]. unfold withErrors. simpl.
  now rewrite app_nil_r.
Qed.

Lemma withErrors_app (env : Env Raw) (xs ys : list string) :
  withErrors (withErrors env xs) ys = withErrors env (xs ++ ys).
Proof.
  unfold withErrors. simpl. now rewrite app_assoc.
Qed.

(** One iteration of the loop never throws: the guard [profile &&] keeps the
    property reads away from [undefined].  It pushes the message of position
    [i + 1] exactly when that position is offending. *)
Lemma checkDosingProfile_run (profiles : list DosingProfile) (i : nat)
    (env : Env Raw) :
  checkDosingProfile Raw profiles i env =
  Normal tt
    (withErrors env
       (if offendingAt profiles (S i) then [profileMessage (S i)] else [])).
Proof.
  unfold checkDosingProfile, offendingAt, offendingProfile.
  rewrite dosingProfileError_message.
  destruct (nth_error profiles i) as [[[lo|] [hi|]]|]; cbn;
    try (now rewrite withErrors_nil).
  unfold bind, and_then, bind, ret. cbn.
  destruct (PrimFloat.leb hi lo); cbn;
    [reflexivity | now rewrite withErrors_nil].
Qed.

(** The loop, started at index [i] for [count] rounds, pushes the messages of
    the offending positions among [i + 1 .. i + count], in ascending order. *)
Lemma for_loop_run (profiles : list DosingProfile) (count i : nat)
    (env : Env Raw) :
  for_loop Raw count i (checkDosingProfile Raw profiles) env =
  Normal tt
    (withErrors env
       (map profileMessage
          (filter (offendingAt profiles) (seq (S i) count)))).
Proof.
  revert i env; induction count as [|count IH]; intros i env.
  - cbn. now rewrite withErrors_nil.
  - cbn [for_loop]. unfold bind at 1.
    rewrite checkDosingProfile_run, IH, withErrors_app.
    cbn [seq filter].
    destruct (offendingAt profiles (S i)); reflexivity.
Qed.

(** A record that passes the schema: the call returns, with the messages of
    the offending positions as errors and at most the one warning. *)
Lemma validateMedication_success (m : Raw) (data : QuickReferenceMedication) :
  safeParse m = SafeParseSuccess data ->
  validateMedication safeParse m =
  Normal (resultOf (expectedErrors data) (expectedWarnings data))
    {| var_medication := m;
       var_errors := expectedErrors data;
       var_warnings := expectedWarnings data |}.
Proof.
  intros Hparse.
  unfold validateMedication, validateMedication_body.
  unfold bind at 1. unfold read_medication. cbn [var_medication].
  rewrite Hparse.
  unfold expectedErrors, expectedWarnings, offendingPositions, profilesOf,
    categoriesMissing.
  unfold bind at 1. unfold bind at 1.
  destruct (dosingProfiles data) as [profiles|];
    [rewrite for_loop_run|];
    destruct (complaintCategories data) as [[|c cs]|]; reflexivity.
Qed.

(** A record that fails the schema: the call returns, with one formatted
    entry per issue and nothing else. *)
Lemma validateMedication_failure (m : Raw) (error : ZodError) :
  safeParse m = SafeParseError error ->
  validateMedication safeParse m =
  Normal (resultOf (map formatIssue (issues error)) [])
    {| var_medication := m;
       var_errors := map formatIssue (issues error);
       var_warnings := [] |}.
Proof.
  intros Hparse.
  unfold validateMedication, validateMedication_body.
  unfold bind at 1. unfold read_medication. cbn [var_medication].
  rewrite Hparse. reflexivity.
Qed.

End Run.

(** ** Offending positions *)

(** [offendingAt] unfolded: position [pos] is offending exactly when it is a
    position of the list (counting from 1) and the profile there has both
    ages, with [minAge >= maxAge]. *)
Lemma offendingAt_spec (profiles : list DosingProfile) (pos : nat) :
  offendingAt profiles pos = true <->
  exists p lo hi,
    1 <= pos /\ nth_error profiles (pos - 1) = Some p /\
    minAge p = Some lo /\ maxAge p = Some hi /\ PrimFloat.leb hi lo = true.
Proof.
  unfold offendingAt, offendingProfile. split.
  - destruct pos as [|k]; [discriminate|].
    destruct (nth_error profiles k) as [p|] eqn:Hnth; [|discriminate].
    destruct (minAge p) as [lo|] eqn:Hlo; [|discriminate].
    destruct (maxAge p) as [hi|] eqn:Hhi; [|discriminate].
    intros Hle. exists p, lo, hi.
    replace (S k - 1) with k by lia. repeat split; auto; lia.
  - intros (p & lo & hi & Hpos & Hnth & Hlo & Hhi & Hle).
    destruct pos as [|k]; [lia|].
    replace (S k - 1) with k in Hnth by lia.
    now rewrite Hnth, Hlo, Hhi.
Qed.

Lemma offendingAt_range (profiles : list DosingProfile) (pos : nat) :
  offendingAt profiles pos = true -> 1 <= pos <= List.length profiles.
Proof.
  intros H. apply offendingAt_spec in H.
  destruct H as (p & _ & _ & Hpos & Hnth & _).
  assert (pos - 1 < List.length profiles)
    by (apply nth_error_Some; congruence).
  lia.
Qed.

Lemma offendingPositions_In (profiles : list DosingProfile) (pos : nat) :
  In pos (offendingPositions profiles) <-> offendingAt profiles pos = true.
Proof.
  unfold offendingPositions. rewrite filter_In, in_seq. split.
  - now intros [_ H].
  - intros H. split; [|assumption].
    apply offendingAt_range in H. lia.
Qed.

Lemma seq_ascending (start len : nat) : StronglySorted lt (seq start len).
Proof.
  revert start; induction len as [|len IH]; intros start; cbn.
  - constructor.
  - constructor; [apply IH|].
    apply Forall_forall. intros x Hx. apply in_seq in Hx. lia.
Qed.

Lemma filter_ascending (f : nat -> bool) (l : list nat) :
  StronglySorted lt l -> StronglySorted lt (filter f l).
Proof.
  induction 1 as [|a l Hl IH Ha]; cbn; [constructor|].
  destruct (f a); [|assumption].
  constructor; [assumption|].
  rewrite Forall_forall in *. intros x Hx.
  apply filter_In in Hx. now apply Ha.
Qed.

Lemma offendingPositions_ascending (profiles : list DosingProfile) :
  StronglySorted lt (offendingPositions profiles).
Proof.
  apply filter_ascending, seq_ascending.
Qed.

Lemma offendingPositions_NoDup (profiles : list DosingProfile) :
  NoDup (offendingPositions profiles).
Proof.
  apply NoDup_filter, seq_NoDup.
Qed.

(** The message of a position occurs once among the expected errors when the
    position is offending, and not at all otherwise. *)
Lemma expectedErrors_count (data : QuickReferenceMedication) (pos : nat) :
  count_occ string_dec (expectedErrors data) (profileMessage pos) =
  if offendingAt (profilesOf data) pos then 1 else 0.
Proof.
  unfold expectedErrors.
  rewrite <- (count_occ_map profileMessage Nat.eq_dec string_dec
                profileMessage_inj).
  destruct (offendingAt (profilesOf data) pos) eqn:Hoff.
  - apply NoDup_count_occ'.
    + apply offendingPositions_NoDup.
    + now apply offendingPositions_In.
  - apply count_occ_not_In. rewrite offendingPositions_In. congruence.
Qed.

Lemma expectedErrors_In (data : QuickReferenceMedication) (entry : string) :
  In entry (expectedErrors data) <->
  exists pos,
    offendingAt (profilesOf data) pos = true /\ entry = profileMessage pos.
Proof.
  unfold expectedErrors. rewrite in_map_iff. split.
  - intros (pos & <- & Hin). exists pos.
    now rewrite <- offendingPositions_In.
  - intros (pos & Hoff & ->). exists pos.
    now rewrite offendingPositions_In.
Qed.

Lemma resultOf_isValid (errs warns : list string) :
  isValid (resultOf errs warns) = true <-> errs = [].
Proof.
  unfold resultOf; cbn. destruct errs; cbn; split; congruence.
Qed.

(** ** Properties of [validateMedication] *)

Section Properties.

Context {Raw : Type} (safeParse : Raw -> SafeParseReturnType).

(** Every call returns: the result after a successful parse, or the result
    after a failed one. *)
Lemma validateMedication_cases (m : Raw) :
  (exists data,
     safeParse m = SafeParseSuccess data /\
     validateMedication safeParse m =
     Normal (resultOf (expectedErrors data) (expectedWarnings data))
       {| var_medication := m;
          var_errors := expectedErrors data;
          var_warnings := expectedWarnings data |}) \/
  (exists error,
     safeParse m = SafeParseError error /\
     validateMedication safeParse m =
     Normal (resultOf (map formatIssue (issues error)) [])
       {| var_medication := m;
          var_errors := map formatIssue (issues error);
          var_warnings := [] |}).
Proof.
  destruct (safeParse m) as [data|error] eqn:Hparse.
  - left. exists data. split; [reflexivity|].
    now apply validateMedication_success.
  - right. exists error. split; [reflexivity|].
    now apply validateMedication_failure.
Qed.

(** Splits on the outcome of the parse for the call on [m] and rewrites the
    call to the result it returns. *)
Ltac run_validator m :=
  let data := fresh "data" in
  let error := fresh "error" in
  let Hparse := fresh "Hparse" in
  let Hrun := fresh "Hrun" in
  destruct (validateMedication_cases m)
    as [(data & Hparse & Hrun) | (error & Hparse & Hrun)];
  rewrite Hrun.

(** C1.  For a record that passes schema validation, the errors are exactly
    the messages "Dosing profile #<pos>: Minimum age must be less than maximum
    age" of the 1-based positions [pos] whose profile has both ages present
    with [minAge >= maxAge] (the comparison of JavaScript numbers, here
    [PrimFloat.leb maxAge minAge]): one entry per such position, in ascending
    order of position, and no other entry.  Every position is examined,
    whatever the earlier ones were. *)
Theorem dosing_profile_errors (m : Raw) (data : QuickReferenceMedication) :
  safeParse m = SafeParseSuccess data ->
  exists r env,
    validateMedication safeParse m = Normal r env /\
    errors r = map profileMessage (offendingPositions (profilesOf data)) /\
    StronglySorted lt (offendingPositions (profilesOf data)) /\
    (forall pos,
       In pos (offendingPositions (profilesOf data)) <->
       exists p lo hi,
         1 <= pos /\ nth_error (profilesOf data) (pos - 1) = Some p /\
         minAge p = Some lo /\ maxAge p = Some hi /\
         PrimFloat.leb hi lo = true) /\
    (forall pos,
       count_occ string_dec (errors r) (profileMessage pos) =
       if offendingAt (profilesOf data) pos then 1 else 0) /\
    (forall entry,
       In entry (errors r) ->
       exists pos,
         offendingAt (profilesOf data) pos = true /\
         entry = profileMessage pos).
Proof.
  intros Hparse. rewrite (validateMedication_success _ _ _ Hparse).
  eexists _, _. split; [reflexivity|]. cbn [errors resultOf].
  repeat split.
  - apply offendingPositions_ascending.
  - intros Hin. now apply offendingAt_spec, offendingPositions_In.
  - intros Hoff. now apply offendingPositions_In, offendingAt_spec.
  - apply expectedErrors_count.
  - intros entry. apply expectedErrors_In.
Qed.

(** C3.  The flag of the returned result is true exactly when its error list
    is empty; it is computed from the errors alone ([errors.length === 0]),
    so the warnings have no part in it. *)
Theorem isValid_iff_no_errors (m : Raw) :
  exists r env,
    validateMedication safeParse m = Normal r env /\
    (isValid r = true <-> errors r = []) /\
    isValid r = (List.length (errors r) =? 0)%nat.
Proof.
  run_validator m; eexists _, _; (split; [reflexivity|]);
    (split; [exact (resultOf_isValid _ _) | reflexivity]).
Qed.

(** C5.  For a record that passes schema validation and whose
    [complaintCategories] is absent or empty, the warnings are exactly
    "No complaint categories assigned".  The warning leaves [isValid] alone:
    the flag is true exactly when there are no errors, and it is the flag of
    any other passing record with the same dosing profiles, whatever its
    categories. *)
Theorem missing_categories_warning (m : Raw) (data : QuickReferenceMedication) :
  safeParse m = SafeParseSuccess data ->
  complaintCategories data = None \/ complaintCategories data = Some [] ->
  exists r env,
    validateMedication safeParse m = Normal r env /\
    warnings r = ["No complaint categories assigned"] /\
    (isValid r = true <-> errors r = []) /\
    (forall m' data',
       safeParse m' = SafeParseSuccess data' ->
       dosingProfiles data' = dosingProfiles data ->
       exists r' env',
         validateMedication safeParse m' = Normal r' env' /\
         isValid r' = isValid r /\ errors r' = errors r).
Proof.
  intros Hparse Hcats. rewrite (validateMedication_success _ _ _ Hparse).
  eexists _, _. split; [reflexivity|]. split; [|split].
  - unfold expectedWarnings, categoriesMissing.
    now destruct Hcats as [-> | ->].
  - exact (resultOf_isValid _ _).
  - intros m' data' Hparse' Hsame.
    rewrite (validateMedication_success _ _ _ Hparse').
    eexists _, _. split; [reflexivity|].
    unfold expectedErrors, profilesOf. rewrite Hsame. split; reflexivity.
Qed.

(** C6.  A record that passes schema validation, has no dosing profiles
    (the property is absent or the list is empty) and has at least one
    complaint category is valid, with no errors and no warnings. *)
Theorem plain_record_valid (m : Raw) (data : QuickReferenceMedication) :
  safeParse m = SafeParseSuccess data ->
  dosingProfiles data = None \/ dosingProfiles data = Some [] ->
  (exists c cs, complaintCategories data = Some (c :: cs)) ->
  exists env,
    validateMedication safeParse m =
    Normal {| isValid := true; errors := []; warnings := [] |} env.
Proof.
  intros Hparse Hnone (c & cs & Hcats).
  rewrite (validateMedication_success _ _ _ Hparse).
  eexists. unfold expectedErrors, expectedWarnings, profilesOf,
    categoriesMissing.
  rewrite Hcats. now destruct Hnone as [-> | ->].
Qed.

(** C9.  For a record that fails schema validation the warnings are empty;
    the check of the complaint categories is not reached. *)
Theorem schema_failure_no_warnings (m : Raw) (error : ZodError) :
  safeParse m = SafeParseError error ->
  exists r env,
    validateMedication safeParse m = Normal r env /\ warnings r = [].
Proof.
  intros Hparse. rewrite (validateMedication_failure _ _ _ Hparse).
  eexists _, _. split; reflexivity.
Qed.

(** C10.  The warnings of a result are at most one entry, and an entry of
    the warnings can only be "No complaint categories assigned". *)
Theorem warnings_at_most_one (m : Raw) :
  exists r env,
    validateMedication safeParse m = Normal r env /\
    List.length (warnings r) <= 1 /\
    (warnings r = [] \/
     warnings r = ["No complaint categories assigned"]) /\
    (forall w,
       In w (warnings r) -> w = "No complaint categories assigned").
Proof.
  run_validator m; eexists _, _; (split; [reflexivity|]);
    cbn [warnings resultOf].
  - unfold expectedWarnings.
    destruct (categoriesMissing data); cbn; repeat split; auto.
    + intros w [<- | []]. reflexivity.
    + intros w [].
  - cbn. repeat split; auto. intros w [].
Qed.

End Properties.

(** ** The properties on the sample inputs *)

Lemma dosing_profile_errors_witness :
  sampleSchema (WellFormed invalidValidInvalid) =
  SafeParseSuccess invalidValidInvalid /\
  exists r env,
    validateMedication sampleSchema (WellFormed invalidValidInvalid) =
    Normal r env /\
    errors r =
    ["Dosing profile #1: Minimum age must be less than maximum age";
     "Dosing profile #3: Minimum age must be less than maximum age"].
Proof.
  split; [reflexivity|].
  destruct (dosing_profile_errors sampleSchema
              (WellFormed invalidValidInvalid) invalidValidInvalid eq_refl)
    as (r & env & Hrun & Herrors & _).
  exists r, env. split; [exact Hrun | exact Herrors].
Defined.

Lemma missing_categories_warning_witness :
  sampleSchema (WellFormed noCategories) = SafeParseSuccess noCategories /\
  (complaintCategories noCategories = None \/
   complaintCategories noCategories = Some []) /\
  exists r env,
    validateMedication sampleSchema (WellFormed noCategories) =
    Normal r env /\
    warnings r = ["No complaint categories assigned"].
Proof.
  split; [reflexivity|]. split; [right; reflexivity|].
  destruct (missing_categories_warning sampleSchema
              (WellFormed noCategories) noCategories eq_refl
              (or_intror eq_refl))
    as (r & env & Hrun & Hwarn & _).
  exists r, env. split; [exact Hrun | exact Hwarn].
Defined.

Lemma plain_record_valid_witness :
  sampleSchema (WellFormed plainRecord) = SafeParseSuccess plainRecord /\
  (dosingProfiles plainRecord = None \/
   dosingProfiles plainRecord = Some []) /\
  (exists c cs, complaintCategories plainRecord = Some (c :: cs)) /\
  exists env,
    validateMedication sampleSchema (WellFormed plainRecord) =
    Normal {| isValid := true; errors := []; warnings := [] |} env.
Proof.
  split; [reflexivity|]. split; [right; reflexivity|].
  split; [exists "pain", []; reflexivity|].
  apply (plain_record_valid sampleSchema (WellFormed plainRecord)
           plainRecord eq_refl (or_intror eq_refl)).
  exists "pain", []. reflexivity.
Defined.

Lemma schema_failure_no_warnings_witness :
  sampleSchema Undefined = SafeParseError undefinedError /\
  exists r env,
    validateMedication sampleSchema Undefined = Normal r env /\
    warnings r = [].
Proof.
  split; [reflexivity|].
  apply (schema_failure_no_warnings sampleSchema Undefined undefinedError).
  reflexivity.
Defined.

Example run_threeChildren :
  map (fun item =>
         (key item, ScrollRevealProps.delay (props item),
          ScrollRevealProps.children (props item)))
      (div_children
         (ScrollRevealList textChildren "scroll-reveal-k3x9q2a"
            threeChildren)) =
  [("scroll-reveal-k3x9q2a-reveal-0", Some 0%float, ["a"]);
   ("scroll-reveal-k3x9q2a-reveal-1", Some 100%float, ["b"]);
   ("scroll-reveal-k3x9q2a-reveal-2", Some 200%float, ["c"])].
Proof. reflexivity. Qed.

(** ** Comparing numbers

    The comparisons of binary64 values, through their specification in
    [SpecFloat]: two numbers neither of which is NaN are always comparable,
    and [b <= a] fails exactly when [a < b]. *)

Lemma SFcompare_antisym (x y : spec_float) :
  SFcompare y x = option_map CompOpp (SFcompare x y).
Proof.
  destruct x as [[]|[]| |[] mx ex], y as [[]|[]| |[] my ey]; cbn;
    try reflexivity;
    rewrite (BinInt.Z.compare_antisym ex ey);
    destruct (BinInt.Z.compare ex ey); cbn; try reflexivity;
    assert (H := BinPos.Pos.compare_cont_antisym mx my Eq); cbn in H;
    rewrite <- H; reflexivity.
Qed.

Lemma SFcompare_refl (x : spec_float) :
  SFcompare x x = match x with S754_nan => None | _ => Some Eq end.
Proof.
  destruct x as [[]|[]| |[] m e]; cbn; try reflexivity;
    rewrite BinInt.Z.compare_refl, BinPos.Pos.compare_cont_refl;
    reflexivity.
Qed.

Lemma SFcompare_None (x y : spec_float) :
  SFcompare x y = None <-> x = S754_nan \/ y = S754_nan.
Proof.
  destruct x as [[]|[]| |[] mx ex], y as [[]|[]| |[] my ey]; cbn;
    split; intros H; try discriminate; auto; destruct H; discriminate.
Qed.

Lemma is_nan_spec (x : number) : is_nan x = true <-> Prim2SF x = S754_nan.
Proof.
  unfold is_nan. rewrite FloatAxioms.eqb_spec. unfold SFeqb.
  rewrite SFcompare_refl.
  destruct (Prim2SF x); cbn; split; congruence.
Qed.

(** [lo >= hi] holds exactly when neither operand is NaN and [lo < hi]
    fails. *)
Lemma ge_iff_not_lt (lo hi : number) :
  PrimFloat.leb hi lo = true <->
  is_nan lo = false /\ is_nan hi = false /\ PrimFloat.ltb lo hi = false.
Proof.
  rewrite FloatAxioms.leb_spec, FloatAxioms.ltb_spec. unfold SFleb, SFltb.
  rewrite (SFcompare_antisym (Prim2SF lo) (Prim2SF hi)).
  assert (Hlo := is_nan_spec lo). assert (Hhi := is_nan_spec hi).
  destruct (SFcompare (Prim2SF lo) (Prim2SF hi)) as [c|] eqn:Hc.
  - assert (Prim2SF lo <> S754_nan /\ Prim2SF hi <> S754_nan) as [Hl Hh].
    { split; intros E;
        assert (SFcompare (Prim2SF lo) (Prim2SF hi) = None)
          by (apply SFcompare_None; auto);
        congruence. }
    destruct (is_nan lo); [now destruct Hl; apply Hlo|].
    destruct (is_nan hi); [now destruct Hh; apply Hhi|].
    destruct c; cbn; split; intuition congruence.
  - cbn. apply SFcompare_None in Hc. split; [discriminate|].
    intros (Hl & Hh & _). destruct Hc as [Hc|Hc].
    + apply Hlo in Hc. congruence.
    + apply Hhi in Hc. congruence.
Qed.

(** ** More on the offending positions *)

Lemma expectedErrors_has (data : QuickReferenceMedication) (pos : nat) :
  In (profileMessage pos) (expectedErrors data) <->
  offendingAt (profilesOf data) pos = true.
Proof.
  rewrite expectedErrors_In. split.
  - intros (pos' & Hoff & Heq). apply profileMessage_inj in Heq.
    now subst.
  - intros Hoff. now exists pos.
Qed.

(** Counting positions from [start + 1] over [profiles] finds as many
    offending ones as there are offending profiles. *)
Lemma offending_from_length (profiles : list DosingProfile) (start : nat) :
  List.length
    (filter (fun pos => offendingAt profiles (pos - start))
       (seq (S start) (List.length profiles))) =
  offendingCount profiles.
Proof.
  unfold offendingCount.
  revert start; induction profiles as [|p profiles IH]; intros start.
  - reflexivity.
  - cbn [List.length seq filter].
    replace (S start - start) with 1 by lia.
    assert (Hrest :
      filter (fun pos => offendingAt (p :: profiles) (pos - start))
        (seq (S (S start)) (List.length profiles)) =
      filter (fun pos => offendingAt profiles (pos - S start))
        (seq (S (S start)) (List.length profiles))).
    { apply filter_ext_in. intros pos Hpos. apply in_seq in Hpos.
      replace (pos - start) with (S (pos - S start)) by lia.
      destruct (pos - S start) as [|j] eqn:Hj; [lia|]. reflexivity. }
    rewrite Hrest. unfold offendingAt at 1. cbn [nth_error].
    destruct (offendingProfile p); cbn [List.length]; now rewrite IH.
Qed.

Lemma offendingPositions_length (profiles : list DosingProfile) :
  List.length (offendingPositions profiles) = offendingCount profiles.
Proof.
  rewrite <- (offending_from_length profiles 0). unfold offendingPositions.
  f_equal. apply filter_ext. intros pos. now rewrite Nat.sub_0_r.
Qed.

Lemma offendingCount_le (profiles : list DosingProfile) :
  offendingCount profiles <= List.length profiles.
Proof.
  apply filter_length_le.
Qed.

Lemma offendingCount_zero (profiles : list DosingProfile) :
  offendingCount profiles = 0 <->
  forall p, In p profiles -> offendingProfile p = false.
Proof.
  unfold offendingCount. rewrite length_zero_iff_nil. split.
  - intros Hnil p Hin.
    destruct (offendingProfile p) eqn:Hoff; [|reflexivity].
    assert (In p (filter offendingProfile profiles))
      by (apply filter_In; auto).
    rewrite Hnil in *. contradiction.
  - intros Hall.
    destruct (filter offendingProfile profiles) as [|p rest] eqn:Hf;
      [reflexivity|].
    assert (Hin : In p (filter offendingProfile profiles))
      by (rewrite Hf; now left).
    apply filter_In in Hin. destruct Hin as [Hin Hoff].
    rewrite (Hall p Hin) in Hoff. discriminate.
Qed.

Lemma seq_add (n start len : nat) :
  map (Nat.add n) (seq start len) = seq (n + start) len.
Proof.
  revert start; induction len as [|len IH]; intros start; cbn;
    [reflexivity|].
  f_equal. rewrite IH. f_equal. lia.
Qed.

(** The positions after a prefix: those of the appended profiles, moved up
    by the length of the prefix. *)
Lemma offendingPositions_app (profiles more : list DosingProfile) :
  offendingPositions (profiles ++ more) =
  offendingPositions profiles ++
  map (Nat.add (List.length profiles)) (offendingPositions more).
Proof.
  unfold offendingPositions.
  rewrite length_app, seq_app, filter_app. f_equal.
  - apply filter_ext_in. intros pos Hpos. apply in_seq in Hpos.
    destruct pos as [|k]; [reflexivity|]. unfold offendingAt.
    rewrite nth_error_app1 by lia. reflexivity.
  - rewrite (Nat.add_comm 1), <- seq_add, filter_map_swap. f_equal.
    apply filter_ext_in. intros pos Hpos. apply in_seq in Hpos.
    destruct pos as [|k]; [lia|].
    rewrite Nat.add_succ_r. unfold offendingAt.
    rewrite nth_error_app2 by lia. f_equal.
    now replace (List.length profiles + k - List.length profiles)
      with k by lia.
Qed.

(** ** More on [validateMedication] *)

Section MoreProperties.

Context {Raw : Type} (safeParse : Raw -> SafeParseReturnType).

(** X1.  A record that passes schema validation is valid exactly when every
    dosing profile that has two comparable ages (both present, neither NaN)
    has [minAge < maxAge]. *)
Theorem valid_iff_ages_ordered (m : Raw) (data : QuickReferenceMedication) :
  safeParse m = SafeParseSuccess data ->
  exists r env,
    validateMedication safeParse m = Normal r env /\
    (isValid r = true <->
     forall p lo hi,
       In p (profilesOf data) ->
       minAge p = Some lo -> maxAge p = Some hi ->
       is_nan lo = false -> is_nan hi = false ->
       PrimFloat.ltb lo hi = true).
Proof.
  intros Hparse. rewrite (validateMedication_success _ _ _ Hparse).
  eexists _, _. split; [reflexivity|].
  rewrite resultOf_isValid. unfold expectedErrors.
  rewrite <- length_zero_iff_nil, length_map, offendingPositions_length,
    offendingCount_zero.
  split.
  - intros Hall p lo hi Hin Hlo Hhi Hnlo Hnhi.
    specialize (Hall p Hin). unfold offendingProfile in Hall.
    rewrite Hlo, Hhi in Hall.
    destruct (PrimFloat.ltb lo hi) eqn:Hlt; [reflexivity|].
    assert (PrimFloat.leb hi lo = true) by (apply ge_iff_not_lt; auto).
    congruence.
  - intros Hall p Hin. unfold offendingProfile.
    destruct (minAge p) as [lo|] eqn:Hlo; [|reflexivity].
    destruct (maxAge p) as [hi|] eqn:Hhi; [|reflexivity].
    destruct (PrimFloat.leb hi lo) eqn:Hle; [|reflexivity].
    apply ge_iff_not_lt in Hle. destruct Hle as (Hnlo & Hnhi & Hlt).
    rewrite (Hall p lo hi Hin Hlo Hhi Hnlo Hnhi) in Hlt. discriminate.
Qed.

(** X2.  For a record that passes schema validation, there are as many
    errors as there are dosing profiles with both ages and
    [minAge >= maxAge], hence never more errors than profiles. *)
Theorem error_count (m : Raw) (data : QuickReferenceMedication) :
  safeParse m = SafeParseSuccess data ->
  exists r env,
    validateMedication safeParse m = Normal r env /\
    List.length (errors r) =
    List.length (filter offendingProfile (profilesOf data)) /\
    List.length (errors r) <= List.length (profilesOf data).
Proof.
  intros Hparse. rewrite (validateMedication_success _ _ _ Hparse).
  eexists _, _. split; [reflexivity|]. cbn [errors resultOf].
  unfold expectedErrors. rewrite length_map, offendingPositions_length.
  split; [reflexivity | apply offendingCount_le].
Qed.

(** X3.  For a record that passes schema validation, the warnings are empty
    exactly when the record has at least one complaint category. *)
Theorem no_warning_iff_categories (m : Raw)
    (data : QuickReferenceMedication) :
  safeParse m = SafeParseSuccess data ->
  exists r env,
    validateMedication safeParse m = Normal r env /\
    (warnings r = [] <->
     exists c cs, complaintCategories data = Some (c :: cs)).
Proof.
  intros Hparse. rewrite (validateMedication_success _ _ _ Hparse).
  eexists _, _. split; [reflexivity|]. cbn [warnings resultOf].
  unfold expectedWarnings, categoriesMissing.
  destruct (complaintCategories data) as [[|c cs]|]; split;
    try discriminate; try (intros (c' & cs' & H); discriminate).
  - intros _. now exists c, cs.
  - reflexivity.
Qed.

(** X4.  Adding dosing profiles at the end of a record keeps the errors of
    the profiles that were there: the errors of the longer record are those
    of the shorter one, followed by the entries of the added profiles,
    numbered on from the length of the shorter list. *)
Theorem appended_profiles (m1 m2 : Raw)
    (data1 data2 : QuickReferenceMedication) (more : list DosingProfile) :
  safeParse m1 = SafeParseSuccess data1 ->
  safeParse m2 = SafeParseSuccess data2 ->
  profilesOf data2 = profilesOf data1 ++ more ->
  exists r1 env1 r2 env2,
    validateMedication safeParse m1 = Normal r1 env1 /\
    validateMedication safeParse m2 = Normal r2 env2 /\
    errors r2 =
    errors r1 ++
    map (fun pos =>
           profileMessage (List.length (profilesOf data1) + pos))
        (offendingPositions more).
Proof.
  intros Hparse1 Hparse2 Hmore.
  rewrite (validateMedication_success _ _ _ Hparse1),
    (validateMedication_success _ _ _ Hparse2).
  eexists _, _, _, _. split; [reflexivity|]. split; [reflexivity|].
  cbn [errors resultOf]. unfold expectedErrors.
  rewrite Hmore, offendingPositions_app, map_app, map_map. reflexivity.
Qed.

(** X5.  For a record that passes schema validation and a dosing profile at
    index [k] that has both ages, the entry "Dosing profile #<k+1>: ..." is
    among the errors exactly when neither age is NaN and [minAge < maxAge]
    fails.  So equal ages are reported, and a NaN age never is. *)
Theorem reported_iff_not_less (m : Raw) (data : QuickReferenceMedication)
    (k : nat) (p : DosingProfile) (lo hi : number) :
  safeParse m = SafeParseSuccess data ->
  nth_error (profilesOf data) k = Some p ->
  minAge p = Some lo -> maxAge p = Some hi ->
  exists r env,
    validateMedication safeParse m = Normal r env /\
    (In (dosingProfileError k) (errors r) <->
     is_nan lo = false /\ is_nan hi = false /\
     PrimFloat.ltb lo hi = false).
Proof.
  intros Hparse Hnth Hlo Hhi.
  rewrite (validateMedication_success _ _ _ Hparse).
  eexists _, _. split; [reflexivity|]. cbn [errors resultOf].
  rewrite dosingProfileError_message, expectedErrors_has.
  unfold offendingAt, offendingProfile. rewrite Hnth, Hlo, Hhi.
  apply ge_iff_not_lt.
Qed.

(** X8.  For every input, the result is valid exactly when the record
    passes schema validation and none of the dosing profiles of the
    validated data has both ages with [minAge >= maxAge]. *)
Theorem valid_iff_parsed_and_ordered (m : Raw) :
  exists r env,
    validateMedication safeParse m = Normal r env /\
    (isValid r = true <->
     exists data,
       safeParse m = SafeParseSuccess data /\
       forall p lo hi,
         In p (profilesOf data) ->
         minAge p = Some lo -> maxAge p = Some hi ->
         PrimFloat.leb hi lo = false).
Proof.
  assert (Hprofile : forall p,
    offendingProfile p = false <->
    forall lo hi,
      minAge p = Some lo -> maxAge p = Some hi ->
      PrimFloat.leb hi lo = false).
  { intros p. unfold offendingProfile.
    destruct (minAge p) as [lo|], (maxAge p) as [hi|]; split;
      try reflexivity; try discriminate.
    - intros H lo' hi' [= <-] [= <-]. exact H.
    - intros H. now apply H. }
  destruct (safeParse m) as [data|error] eqn:Hparse.
  - rewrite (validateMedication_success _ _ _ Hparse).
    eexists _, _. split; [reflexivity|].
    rewrite resultOf_isValid. unfold expectedErrors.
    rewrite <- length_zero_iff_nil, length_map, offendingPositions_length,
      offendingCount_zero.
    split.
    + intros Hall. exists data. split; [reflexivity|].
      intros p lo hi Hin. now apply Hprofile, Hall.
    + intros (data' & [= <-] & Hall) p Hin.
      apply Hprofile. intros lo hi. now apply Hall.
  - rewrite (validateMedication_failure _ _ _ Hparse).
    eexists _, _. split; [reflexivity|].
    rewrite resultOf_isValid. split.
    + intros Hnil. apply map_eq_nil in Hnil.
      now destruct (issues_recorded error).
    + intros (data & Hsuccess & _). discriminate.
Qed.

End MoreProperties.

(** ** The staggered reveal list: keys and items *)

Lemma append_prefix_inj (s t1 t2 : string) :
  (s ++ t1 = s ++ t2)%string -> t1 = t2.
Proof.
  induction s as [|c s IH]; cbn; intros Heq; [assumption|].
  injection Heq as Heq. now apply IH.
Qed.

Lemma revealKey_inj (current : string) (i j : nat) :
  revealKey current i = revealKey current j -> i = j.
Proof.
  unfold revealKey. intros Heq.
  apply append_prefix_inj, append_prefix_inj in Heq.
  now apply String_of_nat_inj.
Qed.

Lemma Array_map_from_length {A B : Type} (f : A -> nat -> B) (index : nat)
    (array : list A) :
  List.length (Array_map_from f index array) = List.length array.
Proof.
  revert index; induction array as [|item rest IH]; intros index; cbn;
    [reflexivity | now rewrite IH].
Qed.

Lemma Array_map_from_nth {A B : Type} (f : A -> nat -> B) (index : nat)
    (array : list A) (i : nat) :
  nth_error (Array_map_from f index array) i =
  option_map (fun item => f item (index + i)) (nth_error array i).
Proof.
  revert index i; induction array as [|item rest IH]; intros index [|i];
    cbn; try reflexivity.
  - now rewrite Nat.add_0_r.
  - rewrite IH. now rewrite Nat.add_succ_r.
Qed.

(** The keys given from [index] on are those of the indices
    [index], [index + 1], ... in turn. *)
Lemma Array_map_from_keys {Node : Type}
    (item : Node -> nat -> ScrollRevealElement Node) (current : string)
    (index : nat) (array : list Node) :
  (forall child i, key (item child i) = revealKey current i) ->
  map key (Array_map_from item index array) =
  map (revealKey current) (seq index (List.length array)).
Proof.
  intros Hkey. revert index.
  induction array as [|child rest IH]; intros index; cbn;
    [reflexivity|].
  now rewrite Hkey, IH.
Qed.

Lemma NoDup_map_injective {A B : Type} (f : A -> B) (l : list A) :
  (forall x y, f x = f y -> x = y) -> NoDup l -> NoDup (map f l).
Proof.
  intros Hinj. induction 1 as [|a l Hnotin Hl IH]; cbn; constructor;
    [|assumption].
  intros Hin. apply in_map_iff in Hin. destruct Hin as (b & Heq & Hb).
  apply Hinj in Heq. now subst.
Qed.

Section ListProperties.

Context {Node : Type} (toArray : Node -> list Node).

(** X6.  The keys of the elements of a list are pairwise distinct, whatever
    string the component holds as its id and whatever the children are. *)
Theorem reveal_keys_distinct (current : string)
    (listProps : ScrollRevealListProps.t Node) :
  NoDup (map key (div_children (ScrollRevealList toArray current listProps))).
Proof.
  unfold ScrollRevealList, Array_map. cbn [div_children].
  rewrite (Array_map_from_keys _ current) by reflexivity.
  apply NoDup_map_injective.
  - intros i j. apply revealKey_inj.
  - apply seq_NoDup.
Qed.

(** X7.  The list has one element per child, in the order of the children:
    the element at index [i] wraps the child at index [i], has the key
    "<id>-reveal-<i>" and the delay [i * staggerDelay] (100 when no stagger
    delay is passed), and gets the item class name, animation (slide-up by
    default), threshold (0.1 by default) and trigger-once flag (true by
    default) of the list. *)
Theorem reveal_items (current : string)
    (listProps : ScrollRevealListProps.t Node) (i : nat) (child : Node) :
  nth_error (toArray (ScrollRevealListProps.children listProps)) i =
  Some child ->
  List.length (div_children (ScrollRevealList toArray current listProps)) =
  List.length (toArray (ScrollRevealListProps.children listProps)) /\
  exists item,
    nth_error (div_children (ScrollRevealList toArray current listProps)) i =
    Some item /\
    key item = (current ++ "-reveal-" ++ String_of_nat i)%string /\
    ScrollRevealProps.children (props item) = child /\
    ScrollRevealProps.delay (props item) =
    Some (PrimFloat.mul (number_of_index i)
            (withDefault 100%float
               (ScrollRevealListProps.staggerDelay listProps))) /\
    ScrollRevealProps.className (props item) =
    ScrollRevealListProps.itemClassName listProps /\
    ScrollRevealProps.animation (props item) =
    Some (withDefault slide_up
            (ScrollRevealListProps.animation listProps)) /\
    ScrollRevealProps.threshold (props item) =
    Some (withDefault 0x1.999999999999ap-4%float
            (ScrollRevealListProps.threshold listProps)) /\
    ScrollRevealProps.triggerOnce (props item) =
    Some (withDefault true (ScrollRevealListProps.triggerOnce listProps)).
Proof.
  intros Hchild. unfold ScrollRevealList, Array_map. cbn [div_children].
  split; [apply Array_map_from_length|].
  rewrite Array_map_from_nth, Hchild. cbn [option_map Nat.add].
  eexists. split; [reflexivity|]. repeat split.
Qed.

End ListProperties.

(** ** The further properties on the sample inputs *)

Lemma valid_iff_ages_ordered_witness :
  sampleSchema (WellFormed invalidThenValid) =
  SafeParseSuccess invalidThenValid /\
  exists r env,
    validateMedication sampleSchema (WellFormed invalidThenValid) =
    Normal r env /\
    (isValid r = true <->
     forall p lo hi,
       In p (profilesOf invalidThenValid) ->
       minAge p = Some lo -> maxAge p = Some hi ->
       is_nan lo = false -> is_nan hi = false ->
       PrimFloat.ltb lo hi = true).
Proof.
  split; [reflexivity|].
  apply (valid_iff_ages_ordered sampleSchema (WellFormed invalidThenValid)
           invalidThenValid).
  reflexivity.
Defined.

Lemma error_count_witness :
  sampleSchema (WellFormed invalidValidInvalid) =
  SafeParseSuccess invalidValidInvalid /\
  exists r env,
    validateMedication sampleSchema (WellFormed invalidValidInvalid) =
    Normal r env /\
    List.length (errors r) = 2.
Proof.
  split; [reflexivity|].
  destruct (error_count sampleSchema (WellFormed invalidValidInvalid)
              invalidValidInvalid eq_refl)
    as (r & env & Hrun & Hcount & _).
  exists r, env. split; [exact Hrun | exact Hcount].
Defined.

Lemma no_warning_iff_categories_witness :
  sampleSchema (WellFormed plainRecord) = SafeParseSuccess plainRecord /\
  exists r env,
    validateMedication sampleSchema (WellFormed plainRecord) =
    Normal r env /\
    (warnings r = [] <->
     exists c cs, complaintCategories plainRecord = Some (c :: cs)).
Proof.
  split; [reflexivity|].
  apply (no_warning_iff_categories sampleSchema (WellFormed plainRecord)
           plainRecord).
  reflexivity.
Defined.

Lemma appended_profiles_witness :
  sampleSchema (WellFormed oneInvalid) = SafeParseSuccess oneInvalid /\
  sampleSchema (WellFormed oneInvalidThenMore) =
  SafeParseSuccess oneInvalidThenMore /\
  profilesOf oneInvalidThenMore =
  profilesOf oneInvalid ++ [sampleProfile 1 2; sampleProfile 3 3] /\
  exists r1 env1 r2 env2,
    validateMedication sampleSchema (WellFormed oneInvalid) =
    Normal r1 env1 /\
    validateMedication sampleSchema (WellFormed oneInvalidThenMore) =
    Normal r2 env2 /\
    errors r2 =
    errors r1 ++
    ["Dosing profile #3: Minimum age must be less than maximum age"].
Proof.
  split; [reflexivity|]. split; [reflexivity|]. split; [reflexivity|].
  apply (appended_profiles sampleSchema (WellFormed oneInvalid)
           (WellFormed oneInvalidThenMore) oneInvalid oneInvalidThenMore
           [sampleProfile 1 2; sampleProfile 3 3]);
    reflexivity.
Defined.

Lemma reported_iff_not_less_witness :
  sampleSchema (WellFormed oneInvalidThenMore) =
  SafeParseSuccess oneInvalidThenMore /\
  nth_error (profilesOf oneInvalidThenMore) 2 = Some (sampleProfile 3 3) /\
  exists r env,
    validateMedication sampleSchema (WellFormed oneInvalidThenMore) =
    Normal r env /\
    (In "Dosing profile #3: Minimum age must be less than maximum age"
        (errors r) <->
     is_nan 3 = false /\ is_nan 3 = false /\ PrimFloat.ltb 3 3 = false).
Proof.
  split; [reflexivity|]. split; [reflexivity|].
  apply (reported_iff_not_less sampleSchema (WellFormed oneInvalidThenMore)
           oneInvalidThenMore 2 (sampleProfile 3 3) 3%float 3%float);
    reflexivity.
Defined.

Lemma reveal_items_witness :
  nth_error (textChildren (ScrollRevealListProps.children threeChildren)) 1 =
  Some ["b"] /\
  exists item,
    nth_error
      (div_children
         (ScrollRevealList textChildren "scroll-reveal-k3x9q2a"
            threeChildren)) 1 = Some item /\
    key item = "scroll-reveal-k3x9q2a-reveal-1" /\
    ScrollRevealProps.delay (props item) = Some 100%float.
Proof.
  split; [reflexivity|].
  destruct (reveal_items textChildren "scroll-reveal-k3x9q2a" threeChildren
              1 ["b"] eq_refl)
    as (_ & item & Hnth & Hkey & _ & Hdelay & _).
  exists item. split; [exact Hnth|]. split; [exact Hkey | exact Hdelay].
Defined.

(** ** Running the validator on a heap *)

Section EngineRun.

Context {Raw : Type} (safeParse : Raw -> SafeParseReturnType)
  (maxArguments : nat).

Lemma nth_error_allocated (heap more : Engine.Heap Raw) (k : nat) :
  nth_error (heap ++ more) (List.length heap + k) = nth_error more k.
Proof.
  rewrite nth_error_app2 by lia. f_equal. lia.
Qed.

Lemma replace_allocated (heap more : Engine.Heap Raw) (k : nat)
    (o : Engine.Object Raw) :
  Engine.replace Raw (heap ++ more) (List.length heap + k) o =
  heap ++ Engine.replace Raw more k o.
Proof.
  induction heap as [|x heap IH]; cbn; [reflexivity | now rewrite IH].
Qed.

Lemma push_errors (heap : Engine.Heap Raw) (errs warns : list string)
    (item : string) :
  Engine.push Raw (List.length heap) item (withArrays heap errs warns) =
  Engine.Normal tt (withArrays heap (errs ++ [item]) warns).
Proof.
  unfold Engine.push, withArrays.
  rewrite <- (Nat.add_0_r (List.length heap)).
  rewrite nth_error_allocated. cbn [nth_error].
  now rewrite replace_allocated.
Qed.

Lemma push_warnings (heap : Engine.Heap Raw) (errs warns : list string)
    (item : string) :
  Engine.push Raw (S (List.length heap)) item (withArrays heap errs warns) =
  Engine.Normal tt (withArrays heap errs (warns ++ [item])).
Proof.
  unfold Engine.push, withArrays.
  rewrite <- (Nat.add_1_r (List.length heap)).
  rewrite nth_error_allocated. cbn [nth_error].
  now rewrite replace_allocated.
Qed.

Lemma push_spread_within (heap : Engine.Heap Raw)
    (errs warns more : list string) :
  List.length more <= maxArguments ->
  Engine.push_spread Raw maxArguments (List.length heap) more
    (withArrays heap errs warns) =
  Engine.Normal tt (withArrays heap (errs ++ more) warns).
Proof.
  intros Hfew. unfold Engine.push_spread, withArrays.
  destruct (Nat.ltb_spec maxArguments (List.length more)); [lia|].
  rewrite <- (Nat.add_0_r (List.length heap)).
  rewrite nth_error_allocated. cbn [nth_error].
  now rewrite replace_allocated.
Qed.

Lemma push_spread_beyond (heap : Engine.Heap Raw) (ref : Engine.Ref)
    (more : list string) :
  maxArguments < List.length more ->
  Engine.push_spread Raw maxArguments ref more heap =
  Engine.Throw (RangeError "Maximum call stack size exceeded") heap.
Proof.
  intros Hmany. unfold Engine.push_spread.
  destruct (Nat.ltb_spec maxArguments (List.length more)); [reflexivity|lia].
Qed.

Lemma array_length_errors (heap : Engine.Heap Raw)
    (errs warns : list string) :
  Engine.array_length Raw (List.length heap) (withArrays heap errs warns) =
  Engine.Normal (List.length errs) (withArrays heap errs warns).
Proof.
  unfold Engine.array_length, withArrays.
  rewrite <- (Nat.add_0_r (List.length heap)) at 1.
  now rewrite nth_error_allocated.
Qed.

Lemma read_input_run (heap : Engine.Heap Raw) (medication : Engine.Ref)
    (value : Raw) (errs warns : list string) :
  nth_error heap medication = Some (Engine.Input value) ->
  Engine.read_input Raw medication (withArrays heap errs warns) =
  Engine.Normal value (withArrays heap errs warns).
Proof.
  intros Hinput. unfold Engine.read_input, withArrays.
  assert (medication < List.length heap)
    by (apply nth_error_Some; congruence).
  now rewrite nth_error_app1, Hinput by assumption.
Qed.

(** Lines 13 and 14: the two arrays are new objects, at the first two free
    indices. *)
Lemma allocate_arrays {A : Type}
    (rest : Engine.Ref -> Engine.Ref -> Engine.Js Raw A)
    (heap : Engine.Heap Raw) :
  Engine.bind Raw (Engine.allocate Raw (Engine.StringArray []))
    (fun errors =>
       Engine.bind Raw (Engine.allocate Raw (Engine.StringArray []))
         (fun warnings => rest errors warnings)) heap =
  rest (List.length heap) (S (List.length heap)) (withArrays heap [] []).
Proof.
  unfold Engine.bind, Engine.allocate, withArrays.
  rewrite length_app, <- app_assoc. cbn [List.length app].
  now rewrite Nat.add_1_r.
Qed.

Lemma engine_checkDosingProfile_run (heap : Engine.Heap Raw)
    (errs warns : list string) (profiles : list DosingProfile) (i : nat) :
  Engine.checkDosingProfile Raw (List.length heap) profiles i
    (withArrays heap errs warns) =
  Engine.Normal tt
    (withArrays heap
       (errs ++
        if offendingAt profiles (S i) then [profileMessage (S i)] else [])
       warns).
Proof.
  unfold Engine.checkDosingProfile, offendingAt, offendingProfile.
  rewrite dosingProfileError_message.
  destruct (nth_error profiles i) as [[[lo|] [hi|]]|]; cbn;
    try (now rewrite app_nil_r).
  unfold Engine.bind, Engine.and_then, Engine.bind, Engine.ret. cbn.
  destruct (PrimFloat.leb hi lo); cbn;
    [apply push_errors | now rewrite app_nil_r].
Qed.

Lemma engine_for_loop_run (heap : Engine.Heap Raw)
    (profiles : list DosingProfile) (count i : nat)
    (errs warns : list string) :
  Engine.for_loop Raw count i
    (Engine.checkDosingProfile Raw (List.length heap) profiles)
    (withArrays heap errs warns) =
  Engine.Normal tt
    (withArrays heap
       (errs ++
        map profileMessage
          (filter (offendingAt profiles) (seq (S i) count)))
       warns).
Proof.
  revert i errs; induction count as [|count IH]; intros i errs.
  - cbn. now rewrite app_nil_r.
  - cbn [Engine.for_loop]. unfold Engine.bind at 1.
    rewrite engine_checkDosingProfile_run, IH, <- app_assoc.
    cbn [seq filter].
    destruct (offendingAt profiles (S i)); reflexivity.
Qed.

(** A call on a record that passes the schema returns; its arrays are the
    two objects after those of [heap]. *)
Lemma engine_success (heap : Engine.Heap Raw) (medication : Engine.Ref)
    (value : Raw) (data : QuickReferenceMedication) :
  nth_error heap medication = Some (Engine.Input value) ->
  safeParse value = SafeParseSuccess data ->
  Engine.validateMedication safeParse maxArguments medication heap =
  Engine.Normal
    (resultAt heap (List.length (expectedErrors data) =? 0)%nat)
    (withArrays heap (expectedErrors data) (expectedWarnings data)).
Proof.
  intros Hinput Hparse. unfold Engine.validateMedication.
  rewrite allocate_arrays. unfold Engine.bind at 1.
  rewrite (read_input_run _ _ _ _ _ Hinput), Hparse.
  unfold expectedErrors, expectedWarnings, offendingPositions, profilesOf,
    categoriesMissing.
  unfold Engine.bind at 1. unfold Engine.bind at 1. unfold Engine.bind at 1.
  destruct (dosingProfiles data) as [profiles|];
    [rewrite engine_for_loop_run|];
    destruct (complaintCategories data) as [[|c cs]|];
    cbn -[withArrays Engine.array_length];
    rewrite ?push_warnings; unfold Engine.bind;
    rewrite array_length_errors; reflexivity.
Qed.

(** A call on a record that fails the schema with no more issues than fit
    in a call returns, with the issues formatted in order. *)
Lemma engine_failure_within (heap : Engine.Heap Raw)
    (medication : Engine.Ref) (value : Raw) (error : ZodError) :
  nth_error heap medication = Some (Engine.Input value) ->
  safeParse value = SafeParseError error ->
  List.length (issues error) <= maxArguments ->
  Engine.validateMedication safeParse maxArguments medication heap =
  Engine.Normal (resultAt heap false)
    (withArrays heap (map formatIssue (issues error)) []).
Proof.
  intros Hinput Hparse Hfew. unfold Engine.validateMedication.
  rewrite allocate_arrays. unfold Engine.bind at 1.
  rewrite (read_input_run _ _ _ _ _ Hinput), Hparse.
  unfold Engine.bind at 1.
  rewrite push_spread_within by now rewrite length_map.
  unfold Engine.bind. rewrite array_length_errors. cbn [app].
  unfold resultAt. rewrite length_map.
  destruct (issues error) eqn:Hissues; [|reflexivity].
  now destruct (issues_recorded error).
Qed.

(** With more issues than fit in a call, line 20 throws and no result is
    built. *)
Lemma engine_failure_beyond (heap : Engine.Heap Raw)
    (medication : Engine.Ref) (value : Raw) (error : ZodError) :
  nth_error heap medication = Some (Engine.Input value) ->
  safeParse value = SafeParseError error ->
  maxArguments < List.length (issues error) ->
  Engine.validateMedication safeParse maxArguments medication heap =
  Engine.Throw (RangeError "Maximum call stack size exceeded")
    (withArrays heap [] []).
Proof.
  intros Hinput Hparse Hmany. unfold Engine.validateMedication.
  rewrite allocate_arrays. unfold Engine.bind at 1.
  rewrite (read_input_run _ _ _ _ _ Hinput), Hparse.
  unfold Engine.bind at 1.
  rewrite push_spread_beyond by now rewrite length_map.
  reflexivity.
Qed.

Lemma snapshot_withArrays (heap : Engine.Heap Raw) (valid : bool)
    (errs warns : list string) :
  Engine.snapshot (withArrays heap errs warns) (resultAt heap valid) =
  Some {| isValid := valid; errors := errs; warnings := warns |}.
Proof.
  unfold Engine.snapshot, Engine.arrayAt, resultAt, withArrays.
  cbn [Engine.result_errors Engine.result_warnings Engine.result_isValid].
  rewrite <- (Nat.add_0_r (List.length heap)) at 1.
  rewrite <- (Nat.add_1_r (List.length heap)).
  now rewrite !nth_error_allocated.
Qed.

End EngineRun.

(** ** The entries of the issues *)

Lemma dotted_join (texts : list string) : join "." texts = dotted texts.
Proof.
  unfold join. induction texts as [|text rest IH]; [reflexivity|].
  cbn [String.concat dotted]. destruct rest; [reflexivity|].
  now rewrite IH.
Qed.

Lemma formatIssue_entry (issue : ZodIssue) :
  formatIssue issue = issueEntry issue.
Proof.
  unfold formatIssue, issueEntry. rewrite dotted_join.
  replace (map String_of_segment (path issue))
    with (map segmentText (path issue)); [reflexivity|].
  apply map_ext. now intros [name|i].
Qed.

Lemma decimalValue_from_uint (d : Decimal.uint) (value : nat) :
  decimalValue_from value (NilEmpty.string_of_uint d) =
  Some (Nat.of_uint_acc d value).
Proof.
  revert value; induction d; intros value; cbn [NilEmpty.string_of_uint];
    [reflexivity|..]; cbn [decimalValue_from];
    match goal with
    | |- context [digitValue ?c] =>
        let v := eval vm_compute in (digitValue c) in
        change (digitValue c) with v
    end;
    cbv iota; rewrite IHd; cbn [Nat.of_uint_acc];
    rewrite Nat.tail_mul_spec; do 2 f_equal; lia.
Qed.

(** The text of an index reads back, digit by digit, as the index. *)
Lemma decimalValue_String_of_nat (n : nat) :
  decimalValue (String_of_nat n) = Some n.
Proof.
  unfold String_of_nat, decimalValue.
  destruct (NilEmpty.string_of_uint (Nat.to_uint n)) eqn:Htext.
  - exfalso.
    assert (Hnorm := DecimalNat.Unsigned.to_of (Nat.to_uint n)).
    rewrite DecimalNat.Unsigned.of_to in Hnorm.
    destruct (Nat.to_uint n); cbn in Htext, Hnorm; discriminate.
  - rewrite <- Htext, decimalValue_from_uint.
    f_equal. apply DecimalNat.Unsigned.of_to.
Qed.

(** ** Properties of the validator on a heap *)

Lemma arrayAt_keeps {Raw : Type} (heap more : Engine.Heap Raw)
    (ref : Engine.Ref) (items : list string) :
  Engine.arrayAt heap ref = Some items ->
  Engine.arrayAt (heap ++ more) ref = Some items.
Proof.
  unfold Engine.arrayAt. intros Hitems.
  destruct (nth_error heap ref) as [o|] eqn:Hnth; [|discriminate].
  assert (ref < List.length heap) by (apply nth_error_Some; congruence).
  now rewrite nth_error_app1, Hnth by assumption.
Qed.

Lemma snapshot_keeps {Raw : Type} (heap more : Engine.Heap Raw)
    (r : Engine.ResultObject) (result : ValidationResult) :
  Engine.snapshot heap r = Some result ->
  Engine.snapshot (heap ++ more) r = Some result.
Proof.
  unfold Engine.snapshot. intros Hresult.
  destruct (Engine.arrayAt heap (Engine.result_errors r)) as [errs|] eqn:He;
    [|discriminate].
  destruct (Engine.arrayAt heap (Engine.result_warnings r)) as [warns|]
    eqn:Hw; [|discriminate].
  now rewrite (arrayAt_keeps _ _ _ _ He), (arrayAt_keeps _ _ _ _ Hw).
Qed.

Lemma withArrays_keeps {Raw : Type} (heap : Engine.Heap Raw)
    (errs warns : list string) (ref : Engine.Ref) (o : Engine.Object Raw) :
  nth_error heap ref = Some o ->
  nth_error (withArrays heap errs warns) ref = Some o.
Proof.
  intros Hnth. unfold withArrays.
  assert (ref < List.length heap) by (apply nth_error_Some; congruence).
  now rewrite nth_error_app1.
Qed.

Section EngineProperties.

Context {Raw : Type} (safeParse : Raw -> SafeParseReturnType)
  (maxArguments : nat).

(** Every call ends in one of three ways, all of which leave the heap it
    started on followed by the two arrays of the call. *)
Lemma engine_cases (heap : Engine.Heap Raw) (medication : Engine.Ref)
    (value : Raw) :
  nth_error heap medication = Some (Engine.Input value) ->
  exists errs warns,
    heapAfter
      (Engine.validateMedication safeParse maxArguments medication heap) =
    withArrays heap errs warns /\
    ((exists valid,
        Engine.validateMedication safeParse maxArguments medication heap =
        Engine.Normal (resultAt heap valid) (withArrays heap errs warns) /\
        forall heap2 medication2,
          nth_error heap2 medication2 = Some (Engine.Input value) ->
          Engine.validateMedication safeParse maxArguments medication2 heap2 =
          Engine.Normal (resultAt heap2 valid)
            (withArrays heap2 errs warns)) \/
     (exists e,
        Engine.validateMedication safeParse maxArguments medication heap =
        Engine.Throw e (withArrays heap errs warns) /\
        forall heap2 medication2,
          nth_error heap2 medication2 = Some (Engine.Input value) ->
          Engine.validateMedication safeParse maxArguments medication2 heap2 =
          Engine.Throw e (withArrays heap2 errs warns))).
Proof.
  intros Hinput.
  destruct (safeParse value) as [data|error] eqn:Hparse.
  - exists (expectedErrors data), (expectedWarnings data).
    rewrite (engine_success _ _ _ _ _ _ Hinput Hparse).
    split; [reflexivity|]. left. eexists. split; [reflexivity|].
    intros heap2 medication2 Hinput2.
    now apply engine_success with (value := value).
  - destruct (le_lt_dec (List.length (issues error)) maxArguments)
      as [Hfew|Hmany].
    + exists (map formatIssue (issues error)), [].
      rewrite (engine_failure_within _ _ _ _ _ _ Hinput Hparse Hfew).
      split; [reflexivity|]. left. eexists. split; [reflexivity|].
      intros heap2 medication2 Hinput2.
      now apply engine_failure_within with (value := value).
    + exists [], [].
      rewrite (engine_failure_beyond _ _ _ _ _ _ Hinput Hparse Hmany).
      split; [reflexivity|]. right. eexists. split; [reflexivity|].
      intros heap2 medication2 Hinput2.
      now apply engine_failure_beyond with (value := value) (error := error).
Qed.

End EngineProperties.

Section EngineClaims.

Context {Raw : Type} (safeParse : Raw -> SafeParseReturnType)
  (maxArguments : nat).

(** C2.  For a record that fails schema validation with no more issues than
    a call takes as arguments, the call returns a result with [isValid]
    false, no warnings, and one error per issue, in the order of the issues:
    the entry of an issue is its path segments separated by ".", then ": ",
    then its message, where a property name stands as it is and an index is
    written as the decimal numeral that reads back as that index.  With
    more issues than that, the spread call of line 20 throws a RangeError
    and no result is returned. *)
Theorem schema_failure_entries (heap : Engine.Heap Raw)
    (medication : Engine.Ref) (value : Raw) (error : ZodError) :
  nth_error heap medication = Some (Engine.Input value) ->
  safeParse value = SafeParseError error ->
  (List.length (issues error) <= maxArguments ->
   exists r heap' result,
     Engine.validateMedication safeParse maxArguments medication heap =
     Engine.Normal r heap' /\
     Engine.snapshot heap' r = Some result /\
     isValid result = false /\
     warnings result = [] /\
     List.length (errors result) = List.length (issues error) /\
     forall k issue,
       nth_error (issues error) k = Some issue ->
       nth_error (errors result) k =
       Some (dotted (map segmentText (path issue)) ++ ": "
             ++ message issue)%string) /\
  (maxArguments < List.length (issues error) ->
   exists heap',
     Engine.validateMedication safeParse maxArguments medication heap =
     Engine.Throw (RangeError "Maximum call stack size exceeded") heap') /\
  (forall name, segmentText (Key name) = name) /\
  (forall i, decimalValue (segmentText (Index i)) = Some i).
Proof.
  intros Hinput Hparse. split; [|split; [|split]].
  - intros Hfew.
    rewrite (engine_failure_within _ _ _ _ _ _ Hinput Hparse Hfew).
    eexists _, _, _. split; [reflexivity|].
    split; [apply snapshot_withArrays|].
    cbn [isValid warnings errors]. repeat split.
    + apply length_map.
    + intros k issue Hk. rewrite nth_error_map, Hk. cbn [option_map].
      f_equal. apply formatIssue_entry.
  - intros Hmany.
    rewrite (engine_failure_beyond _ _ _ _ _ _ Hinput Hparse Hmany).
    eexists. reflexivity.
  - reflexivity.
  - intros i. apply decimalValue_String_of_nat.
Qed.

(** C4.  A call on a record of the caller throws exactly when the record
    fails schema validation with more issues than a call takes as
    arguments, and what it throws then is the RangeError of the spread call
    on line 20.  In every other case it returns. *)
Theorem throws_iff_too_many_issues (heap : Engine.Heap Raw)
    (medication : Engine.Ref) (value : Raw) :
  nth_error heap medication = Some (Engine.Input value) ->
  ((exists e heap',
      Engine.validateMedication safeParse maxArguments medication heap =
      Engine.Throw e heap') <->
   (exists error,
      safeParse value = SafeParseError error /\
      maxArguments < List.length (issues error))) /\
  (forall e heap',
     Engine.validateMedication safeParse maxArguments medication heap =
     Engine.Throw e heap' ->
     e = RangeError "Maximum call stack size exceeded") /\
  ((exists r heap',
      Engine.validateMedication safeParse maxArguments medication heap =
      Engine.Normal r heap') \/
   (exists e heap',
      Engine.validateMedication safeParse maxArguments medication heap =
      Engine.Throw e heap')).
Proof.
  intros Hinput.
  destruct (safeParse value) as [data|error] eqn:Hparse.
  - rewrite (engine_success _ _ _ _ _ _ Hinput Hparse).
    split; [split|split].
    + intros (e & heap' & H). discriminate.
    + intros (error & H & _). discriminate.
    + intros e heap' H. discriminate.
    + left. eexists _, _. reflexivity.
  - destruct (le_lt_dec (List.length (issues error)) maxArguments)
      as [Hfew|Hmany].
    + rewrite (engine_failure_within _ _ _ _ _ _ Hinput Hparse Hfew).
      split; [split|split].
      * intros (e & heap' & H). discriminate.
      * intros (error' & [= <-] & Hmany). lia.
      * intros e heap' H. discriminate.
      * left. eexists _, _. reflexivity.
    + rewrite (engine_failure_beyond _ _ _ _ _ _ Hinput Hparse Hmany).
      split; [split|split].
      * intros _. now exists error.
      * intros _. eexists _, _. reflexivity.
      * intros e heap' [= <- _]. reflexivity.
      * right. eexists _, _. reflexivity.
Qed.

(** C7.  Two calls in a row on the same record end alike: the second call,
    made on the heap the first one left, returns a result with the same
    flag and the same errors and warnings, entry for entry and in the same
    order (or throws the same error, when the first one threw).  The result
    of the first call is not touched by the second: read after the second
    call, it is what it was. *)
Theorem consecutive_calls (heap : Engine.Heap Raw) (medication : Engine.Ref)
    (value : Raw) :
  nth_error heap medication = Some (Engine.Input value) ->
  sameOutcome
    (Engine.validateMedication safeParse maxArguments medication heap)
    (Engine.validateMedication safeParse maxArguments medication
       (heapAfter
          (Engine.validateMedication safeParse maxArguments medication
             heap))) /\
  (forall r1 heap1,
     Engine.validateMedication safeParse maxArguments medication heap =
     Engine.Normal r1 heap1 ->
     exists result,
       Engine.snapshot heap1 r1 = Some result /\
       Engine.snapshot
         (heapAfter
            (Engine.validateMedication safeParse maxArguments medication
               heap1)) r1 = Some result).
Proof.
  intros Hinput.
  destruct (engine_cases safeParse maxArguments heap medication value Hinput)
    as (errs & warns & Hafter & Hcase).
  assert (Hinput1 :
    nth_error (withArrays heap errs warns) medication =
    Some (Engine.Input value)) by now apply withArrays_keeps.
  rewrite Hafter.
  destruct Hcase as [(valid & Hrun & Hany) | (e & Hrun & Hany)].
  - rewrite Hrun, (Hany _ _ Hinput1). split.
    + cbn. eexists. split; apply snapshot_withArrays.
    + intros r1 heap1 [= <- <-]. rewrite (Hany _ _ Hinput1).
      eexists. split; [apply snapshot_withArrays|].
      cbn [heapAfter]. unfold withArrays at 1.
      apply snapshot_keeps, snapshot_withArrays.
  - rewrite Hrun, (Hany _ _ Hinput1). split; [reflexivity|].
    intros r1 heap1 H. discriminate.
Qed.

(** C8.  A call changes no object that was on the heap before it: the
    record it was given and every other object are what they were, whether
    the call returns or throws; all the call writes to are the two arrays it
    allocates.  And how the call ends is decided by the record and the
    schema: on any heap, through any reference to the same record, the call
    ends alike. *)
Theorem call_leaves_heap (heap : Engine.Heap Raw) (medication : Engine.Ref)
    (value : Raw) :
  nth_error heap medication = Some (Engine.Input value) ->
  (forall ref o,
     nth_error heap ref = Some o ->
     nth_error
       (heapAfter
          (Engine.validateMedication safeParse maxArguments medication heap))
       ref = Some o) /\
  (forall heap2 medication2,
     nth_error heap2 medication2 = Some (Engine.Input value) ->
     sameOutcome
       (Engine.validateMedication safeParse maxArguments medication heap)
       (Engine.validateMedication safeParse maxArguments medication2
          heap2)).
Proof.
  intros Hinput.
  destruct (engine_cases safeParse maxArguments heap medication value Hinput)
    as (errs & warns & Hafter & Hcase).
  split.
  - intros ref o Hnth. rewrite Hafter. now apply withArrays_keeps.
  - intros heap2 medication2 Hinput2.
    destruct Hcase as [(valid & Hrun & Hany) | (e & Hrun & Hany)];
      rewrite Hrun, (Hany _ _ Hinput2); cbn.
    + eexists. split; apply snapshot_withArrays.
    + reflexivity.
Qed.

End EngineClaims.

(** What a call on a heap returns is what [validateMedication] returns for
    the record, with the arrays read off the heap. *)
Lemma engine_refines {Raw : Type} (safeParse : Raw -> SafeParseReturnType)
    (maxArguments : nat) (heap heap' : Engine.Heap Raw)
    (medication : Engine.Ref) (value : Raw) (r : Engine.ResultObject) :
  nth_error heap medication = Some (Engine.Input value) ->
  Engine.validateMedication safeParse maxArguments medication heap =
  Engine.Normal r heap' ->
  exists result env,
    validateMedication safeParse value = Normal result env /\
    Engine.snapshot heap' r = Some result.
Proof.
  intros Hinput Hrun.
  destruct (safeParse value) as [data|error] eqn:Hparse.
  - rewrite (engine_success _ _ _ _ _ _ Hinput Hparse) in Hrun.
    injection Hrun as <- <-.
    rewrite (validateMedication_success _ _ _ Hparse).
    eexists _, _. split; [reflexivity|]. apply snapshot_withArrays.
  - destruct (le_lt_dec (List.length (issues error)) maxArguments)
      as [Hfew|Hmany].
    + rewrite (engine_failure_within _ _ _ _ _ _ Hinput Hparse Hfew) in Hrun.
      injection Hrun as <- <-.
      rewrite (validateMedication_failure _ _ _ Hparse).
      eexists _, _. split; [reflexivity|].
      rewrite snapshot_withArrays. unfold resultOf. do 2 f_equal.
      rewrite length_map.
      destruct (issues error) eqn:Hissues; [|reflexivity].
      now destruct (issues_recorded error).
    + rewrite (engine_failure_beyond _ _ _ _ _ _ Hinput Hparse Hmany)
        in Hrun.
      discriminate.
Qed.

(** ** The validator on sample heaps *)

Example engine_run_Malformed :
  Engine.validateMedication deepSchema 5 0 (oneRecord Malformed) =
  Engine.Normal
    {| Engine.result_isValid := false;
       Engine.result_errors := 1;
       Engine.result_warnings := 2 |}
    [Engine.Input Malformed;
     Engine.StringArray
       ["dosingProfiles.12.maxAge: Expected number, received string";
        "name: Required";
        ": Required"];
     Engine.StringArray []].
Proof. reflexivity. Qed.

Example engine_run_too_many :
  Engine.validateMedication deepSchema 2 0 (oneRecord Malformed) =
  Engine.Throw (RangeError "Maximum call stack size exceeded")
    [Engine.Input Malformed; Engine.StringArray []; Engine.StringArray []].
Proof. reflexivity. Qed.

(** Two hundred thousand issues and one, where a call takes a hundred and
    twenty-five thousand arguments. *)
Example engine_run_crowded :
  Engine.validateMedication (crowdedSchema (200 * 1000)) (125 * 1000) 0
    (oneRecord Malformed) =
  Engine.Throw (RangeError "Maximum call stack size exceeded")
    [Engine.Input Malformed; Engine.StringArray []; Engine.StringArray []].
Proof. vm_compute. reflexivity. Qed.

(** A second call on the heap left by a first one: new arrays, the same
    entries, and the arrays of the first call as they were. *)
Example engine_run_twice :
  Engine.validateMedication sampleSchema 5 0
    (heapAfter
       (Engine.validateMedication sampleSchema 5 0
          (oneRecord (WellFormed oneInvalid)))) =
  Engine.Normal
    {| Engine.result_isValid := false;
       Engine.result_errors := 3;
       Engine.result_warnings := 4 |}
    [Engine.Input (WellFormed oneInvalid);
     Engine.StringArray
       ["Dosing profile #1: Minimum age must be less than maximum age"];
     Engine.StringArray [];
     Engine.StringArray
       ["Dosing profile #1: Minimum age must be less than maximum age"];
     Engine.StringArray []].
Proof. reflexivity. Qed.

Example decimalValue_samples :
  decimalValue "12" = Some 12 /\
  decimalValue "0" = Some 0 /\
  decimalValue "1a" = None /\
  decimalValue "" = None.
Proof. repeat split. Qed.

(** ** The properties on the sample heaps *)

Lemma schema_failure_entries_witness :
  nth_error (oneRecord Malformed) 0 = Some (Engine.Input Malformed) /\
  deepSchema Malformed = SafeParseError deepError /\
  (exists r heap' result,
     Engine.validateMedication deepSchema 5 0 (oneRecord Malformed) =
     Engine.Normal r heap' /\
     Engine.snapshot heap' r = Some result /\
     isValid result = false /\
     nth_error (errors result) 0 =
     Some "dosingProfiles.12.maxAge: Expected number, received string") /\
  (exists heap',
     Engine.validateMedication deepSchema 2 0 (oneRecord Malformed) =
     Engine.Throw (RangeError "Maximum call stack size exceeded") heap').
Proof.
  split; [reflexivity|]. split; [reflexivity|]. split.
  - destruct (schema_failure_entries deepSchema 5 (oneRecord Malformed) 0
                Malformed deepError eq_refl eq_refl)
      as (Hwithin & _).
    destruct Hwithin as (r & heap' & result & Hrun & Hsnap & Hflag & _ & _
                         & Hentry); [cbn; lia|].
    exists r, heap', result. repeat split; try assumption.
    exact (Hentry 0 deepIssue eq_refl).
  - destruct (schema_failure_entries deepSchema 2 (oneRecord Malformed) 0
                Malformed deepError eq_refl eq_refl)
      as (_ & Hbeyond & _).
    apply Hbeyond. cbn. lia.
Defined.

Lemma throws_iff_too_many_issues_witness :
  nth_error (oneRecord Malformed) 0 = Some (Engine.Input Malformed) /\
  exists e heap',
    Engine.validateMedication deepSchema 2 0 (oneRecord Malformed) =
    Engine.Throw e heap'.
Proof.
  split; [reflexivity|].
  destruct (throws_iff_too_many_issues deepSchema 2 (oneRecord Malformed) 0
              Malformed eq_refl)
    as ((_ & Hthrows) & _).
  apply Hthrows. exists deepError. split; [reflexivity | cbn; lia].
Defined.

Lemma consecutive_calls_witness :
  nth_error (oneRecord (WellFormed oneInvalid)) 0 =
  Some (Engine.Input (WellFormed oneInvalid)) /\
  sameOutcome
    (Engine.validateMedication sampleSchema 5 0
       (oneRecord (WellFormed oneInvalid)))
    (Engine.validateMedication sampleSchema 5 0
       (heapAfter
          (Engine.validateMedication sampleSchema 5 0
             (oneRecord (WellFormed oneInvalid))))).
Proof.
  split; [reflexivity|].
  apply (consecutive_calls sampleSchema 5
           (oneRecord (WellFormed oneInvalid)) 0 (WellFormed oneInvalid)).
  reflexivity.
Defined.

Lemma call_leaves_heap_witness :
  nth_error
    [Engine.StringArray ["kept"]; Engine.Input (WellFormed oneInvalid)] 1 =
  Some (Engine.Input (WellFormed oneInvalid)) /\
  nth_error
    (heapAfter
       (Engine.validateMedication sampleSchema 5 1
          [Engine.StringArray ["kept"];
           Engine.Input (WellFormed oneInvalid)])) 0 =
  Some (Engine.StringArray ["kept"]).
Proof.
  split; [reflexivity|].
  apply (call_leaves_heap sampleSchema 5
           [Engine.StringArray ["kept"];
            Engine.Input (WellFormed oneInvalid)]
           1 (WellFormed oneInvalid) eq_refl).
  reflexivity.
Defined.
